(** * mythril.analysis.symbolic: the wrapper around the LASER engine

    A shallow embedding of [SymExecWrapper.__init__]
    (mythril/analysis/symbolic.py): the environment it assembles around the
    symbolic virtual machine and the pass that parses the call-family
    instructions of the produced statespace into [Call] records. *)

From Stdlib Require Import ZArith List String Ascii Bool Lia HexString.
Import ListNotations.

Open Scope string_scope.
Open Scope list_scope.
Open Scope Z_scope.

(** ** Python: exceptions, sequences and dicts *)

Module Py.

Inductive exn : Type :=
| IndexError
| KeyError
| TypeError
| ValueError (msg : string).

(** A computation that returns a value or raises. *)
Definition result (A : Type) : Type := (exn + A)%type.

Definition ret {A} (a : A) : result A := inr a.
Definition raise {A} (e : exn) : result A := inl e.

Definition bind {A B} (m : result A) (k : A -> result B) : result B :=
match m with
| inl e => inl e
| inr a => k a
end.

(** [l[-k]] for a positive literal [k]: counted from the end of the list,
  [IndexError] when the list has fewer than [k] items. *)
Definition getitem_neg {A} (l : list A) (k : nat) : result A :=
match k with
| O => raise IndexError
| S _ =>
    if (k <=? List.length l)%nat
    then match nth_error l (List.length l - k) with
         | Some x => ret x
         | None => raise IndexError
         end
    else raise IndexError
end.

(** A dict keeps its items in insertion order; every key occurs once. *)
Definition dict (K V : Type) : Type := list (K * V).

Section Dict.
Context {K V : Type} (eqb : K -> K -> bool).

Fixpoint get (d : dict K V) (k : K) : option V :=
  match d with
  | [] => None
  | (k', v) :: d' => if eqb k k' then Some v else get d' k
  end.

(** [d[k]] *)
Definition getitem (d : dict K V) (k : K) : result V :=
  match get d k with
  | Some v => ret v
  | None => raise KeyError
  end.

(** [d[k] = v]: an existing key keeps its position. *)
Fixpoint setitem (d : dict K V) (k : K) (v : V) : dict K V :=
  match d with
  | [] => [(k, v)]
  | (k', v') :: d' =>
      if eqb k k' then (k, v) :: d' else (k', v') :: setitem d' k v
  end.

Definition keys (d : dict K V) : list K := map fst d.
Definition values (d : dict K V) : list V := map snd d.
End Dict.

(** [op in (a, b, ...)] on strings *)
Definition str_in (s : string) (t : list string) : bool :=
existsb (String.eqb s) t.

End Py.

Import Py.

Notation "x <- m ;; k" := (Py.bind m (fun x => k))
  (at level 61, m at next level, right associativity).

(** ** mythril.analysis.ops *)

Inductive Value : Type :=
| Concrete (n : Z)
| Symbolic (e : string).

Inductive VarType : Type := SYMBOLIC | CONCRETE.

(** [Variable] of [mythril.analysis.ops]: a value with the tag of its kind. *)
Record Var : Type := mkVariable { val : Value; type : VarType }.

(** Modelled from the spec: [get_variable] of [mythril.analysis.ops], which
    this module imports.  Every value read from the stack is classified into
    exactly one of the two kinds: a definite integer is [CONCRETE], an
    unresolved expression is [SYMBOLIC]. *)
Definition get_variable (i : Value) : Var :=
  match i with
  | Concrete n => mkVariable (Concrete n) CONCRETE
  | Symbolic e => mkVariable (Symbolic e) SYMBOLIC
  end.

(** The integer of a variable's [val]; comparing or adding an expression
    where an integer is needed is a [TypeError]. *)
Definition int_val (v : Var) : result Z :=
  match val v with
  | Concrete n => ret n
  | Symbolic _ => raise TypeError
  end.

Definition is_concrete (v : Var) : bool :=
  match type v with
  | CONCRETE => true
  | SYMBOLIC => false
  end.

(** ** The statespace *)

Record Instruction : Type :=
  mkInstruction { opcode : string; argument : option Z }.

(** Modelled from the spec: the memory of
    [mythril.laser.ethereum.state.memory], a linear region of bytes that is
    indexed by 256-bit words.  The list holds the bytes from address zero
    on; a byte beyond it was never written and reads as zero. *)
Module Memory.

(** [memory[i]] *)
Definition getitem (m : list Value) (i : Z) : Value :=
  nth (Z.to_nat (i mod 2 ^ 256)) m (Concrete 0).

(** [memory[start:stop]]: the bytes at [start], [start + 1], ... up to
    [stop], the addresses and the count taken modulo [2^256]. *)
Definition slice (m : list Value) (start stop : Z) : list Value :=
  map (fun k => getitem m (start + Z.of_nat k))
    (seq 0 (Z.to_nat ((stop - start) mod 2 ^ 256))).

End Memory.

(** Modelled from the spec: the machine state of
    [mythril.laser.ethereum.state]; an operand stack whose top is the last
    item, and the memory. *)
Record MachineState : Type :=
  mkMachineState { stack : list Value; memory : list Value }.

(** Modelled from the spec: a state of the statespace, a point-in-time
    snapshot with the instruction that is executed at it. *)
Record GlobalState : Type :=
  mkGlobalState { current_instruction : Instruction; mstate : MachineState }.

(** Modelled from the spec: [state.get_current_instruction()], for a state
    that has a current instruction. *)
Definition get_current_instruction (state : GlobalState) : Instruction :=
  current_instruction state.

Record Node : Type := mkNode { uid : Z; states : list GlobalState }.

(** Modelled from the spec: [Call] of [mythril.analysis.ops].  The record
    keeps what the constructor is given; [value] and [data] are the two
    optional arguments. *)
Record Call : Type := mkCall {
  node : Node;
  state : GlobalState;
  state_index : nat;
  call_type : string;
  to : Var;
  gas : Var;
  value : option Var;
  data : option (list Value)
}.

(** ** Parsing the calls of the statespace

    [PRECOMPILE_COUNT] comes from [mythril.laser.ethereum.natives]; the
    pass only compares targets against it. *)

(** How one run of the inner loop's body ends: at its last statement, or
    at the [continue] of the prebuilt filter. *)
Inductive Flow : Type := Fallthrough | Continue.

Definition call_family : list string :=
  ["CALL"; "CALLCODE"; "DELEGATECALL"; "STATICCALL"].

Definition value_calls : list string := ["CALL"; "CALLCODE"].

Section ParseCalls.

Variable PRECOMPILE_COUNT : Z.

(** [to.type == VarType.CONCRETE and 0 < to.val <= PRECOMPILE_COUNT] *)
Definition is_prebuilt (to : Var) : result bool :=
  if is_concrete to
  then t <- int_val to ;; ret ((0 <? t) && (t <=? PRECOMPILE_COUNT))
  else ret false.

(** The body of [for state in self.nodes[key].states], up to the increment
    of [state_index]: the new [self.calls] and the way the body is left. *)
Definition parse_state (nodes : dict Z Node) (key : Z) (state : GlobalState)
    (state_index : nat) (calls : list Call) : result (list Call * Flow) :=
  let instruction := get_current_instruction state in
  let op := opcode instruction in
  if str_in op call_family then
    let stack := stack (mstate state) in
    if str_in op value_calls then
      gas <- getitem_neg stack 1 ;;
      to <- getitem_neg stack 2 ;;
      value <- getitem_neg stack 3 ;;
      meminstart <- getitem_neg stack 4 ;;
      meminsz <- getitem_neg stack 5 ;;
      memoutstart <- getitem_neg stack 6 ;;
      memoutsz <- getitem_neg stack 7 ;;
      let gas := get_variable gas in
      let to := get_variable to in
      let value := get_variable value in
      let meminstart := get_variable meminstart in
      let meminsz := get_variable meminsz in
      prebuilt <- is_prebuilt to ;;
      if prebuilt then
        (* ignore prebuilts *)
        ret (calls, Continue)
      else if is_concrete meminstart && is_concrete meminsz then
        n <- getitem Z.eqb nodes key ;;
        start <- int_val meminstart ;;
        sz <- int_val meminsz ;;
        ret (calls ++
               [mkCall n state state_index op to gas (Some value)
                  (Some (Memory.slice (memory (mstate state)) start (sz + start)))],
             Fallthrough)
      else
        n <- getitem Z.eqb nodes key ;;
        ret (calls ++ [mkCall n state state_index op to gas (Some value) None],
             Fallthrough)
    else
      gas <- getitem_neg stack 1 ;;
      to <- getitem_neg stack 2 ;;
      meminstart <- getitem_neg stack 3 ;;
      meminsz <- getitem_neg stack 4 ;;
      memoutstart <- getitem_neg stack 5 ;;
      memoutsz <- getitem_neg stack 6 ;;
      let gas := get_variable gas in
      let to := get_variable to in
      n <- getitem Z.eqb nodes key ;;
      ret (calls ++ [mkCall n state state_index op to gas None None],
           Fallthrough)
  else ret (calls, Fallthrough).

(** [for state in self.nodes[key].states: ...; state_index += 1] *)
Fixpoint for_states (nodes : dict Z Node) (key : Z) (sts : list GlobalState)
    (state_index : nat) (calls : list Call) : result (list Call) :=
  match sts with
  | [] => ret calls
  | state :: rest =>
      r <- parse_state nodes key state state_index calls ;;
      match snd r with
      | Fallthrough => for_states nodes key rest (S state_index) (fst r)
      | Continue => for_states nodes key rest state_index (fst r)
      end
  end.

(** [for key in self.nodes: state_index = 0; ...] *)
Fixpoint for_keys (nodes : dict Z Node) (ks : list Z) (calls : list Call)
    : result (list Call) :=
  match ks with
  | [] => ret calls
  | key :: rest =>
      n <- getitem Z.eqb nodes key ;;
      calls' <- for_states nodes key (states n) 0 calls ;;
      for_keys nodes rest calls'
  end.

(** The pass as a whole: [self.calls] once both loops are over. *)
Definition parse_calls (nodes : dict Z Node) : result (list Call) :=
  for_keys nodes (keys nodes) [].

End ParseCalls.


(** ** The collaborators of the wrapper *)

(** [mythril.laser.ethereum.strategy.basic] *)
Inductive Strategy : Type :=
| DepthFirstSearchStrategy
| BreadthFirstSearchStrategy
| ReturnRandomNaivelyStrategy
| ReturnWeightedRandomStrategy.

(** Modelled from the spec: [symbol_factory.BitVecVal] of
    [mythril.laser.smt]; the definite value of the given width. *)
Definition BitVecVal (n size : Z) : Value := Concrete (n mod 2 ^ size).

(** [.value] of a bit vector: the integer of a definite one, [None] of an
    expression. *)
Definition bv_value (b : Value) : option Z :=
  match b with
  | Concrete n => Some n
  | Symbolic _ => None
  end.

(** [Union[int, str, BitVec]] *)
Inductive Address : Type :=
| AddrInt (n : Z)
| AddrStr (s : string)
| AddrBitVec (b : Value).

Record DynLoader : Type := mkDynLoader { storage_loading : bool }.

Record Disassembly : Type := mkDisassembly { bytecode : string }.

Inductive Code : Type :=
| Bytecode (s : string)
| Disassembled (d : Disassembly).

Module Account.
(** Modelled from the spec: [Account] of
    [mythril.laser.ethereum.state.account], as the arguments it is built
    from; [concrete_storage] is off unless it is given. *)
Record t : Type := mk {
  address : Address;
  code : Code;
  dynamic_loader : option DynLoader;
  contract_name : option string;
  concrete_storage : bool
}.
End Account.

Inductive ContractClass : Type :=
| SolidityContract
| EVMContract
| OtherContract.

Module Contract.
Record t : Type := mk {
  class : ContractClass;
  name : string;
  creation_code : string;
  disassembly : Disassembly
}.
End Contract.

(** [ACTORS.creator.value] and [ACTORS.attacker.value] of
    [mythril.laser.ethereum.transaction.symbolic]. *)
Record Actors : Type := mkActors { creator : Z; attacker : Z }.

Inductive EntryPoint : Type := POST | CALLBACK.

Inductive Plugin : Type :=
| instruction_coverage_plugin
| mutation_pruner_plugin
| dependency_pruner_plugin.

(** The keyword arguments of [__init__]. *)
Module Options.
Record t (Iprof : Type) : Type := mk {
  dynloader : option DynLoader;
  max_depth : Z;
  execution_timeout : option Z;
  loop_bound : option Z;
  create_timeout : option Z;
  transaction_count : Z;
  modules : option (list string);
  compulsory_statespace : bool;
  iprof : option Iprof;
  disable_dependency_pruning : bool;
  run_analysis_modules : bool;
  enable_coverage_strategy : bool;
  custom_modules_directory : string
}.
Arguments mk {Iprof}.
Arguments dynloader {Iprof}.
Arguments max_depth {Iprof}.
Arguments execution_timeout {Iprof}.
Arguments loop_bound {Iprof}.
Arguments create_timeout {Iprof}.
Arguments transaction_count {Iprof}.
Arguments modules {Iprof}.
Arguments compulsory_statespace {Iprof}.
Arguments iprof {Iprof}.
Arguments disable_dependency_pruning {Iprof}.
Arguments run_analysis_modules {Iprof}.
Arguments enable_coverage_strategy {Iprof}.
Arguments custom_modules_directory {Iprof}.

(** The defaults of the signature. *)
Definition default {Iprof : Type} : t Iprof :=
  mk None 22 None (Some 3) None 2 None true None false true false "".
End Options.

(** The arguments [svm.LaserEVM] is built with. *)
Module LaserEVM.
Record t (Iprof : Type) : Type := mk {
  dynamic_loader : option DynLoader;
  max_depth : Z;
  execution_timeout : option Z;
  strategy : Strategy;
  create_timeout : option Z;
  transaction_count : Z;
  requires_statespace : bool;
  iprof : option Iprof;
  enable_coverage_strategy : bool;
  instruction_laser_plugin : Plugin
}.
Arguments mk {Iprof}.
Arguments dynamic_loader {Iprof}.
Arguments max_depth {Iprof}.
Arguments execution_timeout {Iprof}.
Arguments strategy {Iprof}.
Arguments create_timeout {Iprof}.
Arguments transaction_count {Iprof}.
Arguments requires_statespace {Iprof}.
Arguments iprof {Iprof}.
Arguments enable_coverage_strategy {Iprof}.
Arguments instruction_laser_plugin {Iprof}.
End LaserEVM.

(** What the wrapper does to its collaborators, in the order it does it:
    the objects it builds and the methods it calls on them. *)
Inductive Event (Iprof HookDict : Type) : Type :=
| NewAccount (a : Account.t)
| BuildPlugin (p : Plugin)
| NewLaserEVM (args : LaserEVM.t Iprof)
| ExtendStrategy (loop_bound : Z)
| NewPluginLoader
| LoadPlugin (p : Plugin)
| NewWorldState
| PutAccount (a : Account.t)
| RegisterHooks (hook_type : string) (hook_dict : HookDict)
| SymExecCreation (creation_code : string) (contract_name : string)
| SymExecTarget (target_address : option Z).

Arguments NewAccount {Iprof HookDict}.
Arguments BuildPlugin {Iprof HookDict}.
Arguments NewLaserEVM {Iprof HookDict}.
Arguments ExtendStrategy {Iprof HookDict}.
Arguments NewPluginLoader {Iprof HookDict}.
Arguments LoadPlugin {Iprof HookDict}.
Arguments NewWorldState {Iprof HookDict}.
Arguments PutAccount {Iprof HookDict}.
Arguments RegisterHooks {Iprof HookDict}.
Arguments SymExecCreation {Iprof HookDict}.
Arguments SymExecTarget {Iprof HookDict}.

(** The attributes of the wrapper; one that [__init__] never assigned is
    [None]. *)
Module SymExecWrapper.
Record t (Iprof Edge : Type) : Type := mk {
  accounts : dict string Account.t;
  laser : LaserEVM.t Iprof;
  nodes : option (dict Z Node);
  edges : option (list Edge);
  calls : option (list Call)
}.
Arguments mk {Iprof Edge}.
Arguments accounts {Iprof Edge}.
Arguments laser {Iprof Edge}.
Arguments nodes {Iprof Edge}.
Arguments edges {Iprof Edge}.
Arguments calls {Iprof Edge}.
End SymExecWrapper.

(** ** Effects: a log of events, and exceptions *)

Module Eff.
Section Eff.
Context {E : Type}.

Definition M (A : Type) : Type := list E -> result A * list E.

Definition ret {A} (a : A) : M A := fun log => (inr a, log).

Definition bind {A B} (m : M A) (k : A -> M B) : M B :=
  fun log =>
    match m log with
    | (inl e, log') => (inl e, log')
    | (inr a, log') => k a log'
    end.

Definition lift {A} (r : result A) : M A := fun log => (r, log).

Definition emit (ev : E) : M unit := fun log => (inr tt, log ++ [ev]).

(** The events so far. *)
Definition history : M (list E) := fun log => (inr log, log).

Fixpoint for_each {A} (l : list A) (body : A -> M unit) : M unit :=
  match l with
  | [] => ret tt
  | a :: l' => bind (body a) (fun _ => for_each l' body)
  end.

Definition when (b : bool) (m : M unit) : M unit := if b then m else ret tt.
End Eff.
End Eff.

Notation "x <~ m ;; k" := (Eff.bind m (fun x => k))
  (at level 61, m at next level, right associativity).
Notation "m ;;; k" := (Eff.bind m (fun _ => k))
  (at level 61, right associativity).

(** ** SymExecWrapper.__init__ *)

(** The chain of comparisons on the strategy name. *)
Definition select_strategy (strategy : string) : result Strategy :=
  if (strategy =? "dfs")%string then ret DepthFirstSearchStrategy
  else if (strategy =? "bfs")%string then ret BreadthFirstSearchStrategy
  else if (strategy =? "naive-random")%string then ret ReturnRandomNaivelyStrategy
  else if (strategy =? "weighted-random")%string then ret ReturnWeightedRandomStrategy
  else raise (ValueError "Invalid strategy argument supplied").

(** Truth value of a string: the empty one is false. *)
Definition truthy (s : string) : bool := negb (s =? "")%string.

(** [hex(n)] *)
Definition hex (n : Z) : string := HexString.of_Z n.

(** The contracts that are run from their creation code. *)
Definition runs_creation (contract : Contract.t) : bool :=
  match Contract.class contract with
  | SolidityContract => true
  | EVMContract => truthy (Contract.creation_code contract)
  | OtherContract => false
  end.

Definition is_sym_exec {Iprof HookDict} (ev : Event Iprof HookDict) : bool :=
  match ev with
  | SymExecCreation _ _ | SymExecTarget _ => true
  | _ => false
  end.

Section Wrapper.

(** The engine's own types, which the wrapper only passes along. *)
Variables Iprof HookDict DetectionModule Edge : Type.

Variable PRECOMPILE_COUNT : Z.
Variable ACTORS : Actors.

(** [int(s, 16)], which raises [ValueError] on a malformed literal. *)
Variable int16 : string -> result Z.

(** [ModuleLoader().get_detection_modules(entry_point, white_list)], for a
    white list of module names that the loader knows, and
    [get_detection_module_hooks(modules, hook_type)]. *)
Variable get_detection_modules :
  EntryPoint -> option (list string) -> list DetectionModule.
Variable get_detection_module_hooks :
  list DetectionModule -> string -> HookDict.

(** [laser.nodes] and [laser.edges], which the engine fills while it is
    driven through the events of the log. *)
Variable laser_nodes : list (Event Iprof HookDict) -> dict Z Node.
Variable laser_edges : list (Event Iprof HookDict) -> list Edge.

(** The two [isinstance] tests on [address]. *)
Definition normalize_address (address : Address) : result Value :=
  match address with
  | AddrStr s => n <- int16 s ;; ret (BitVecVal n 256)
  | AddrInt n => ret (BitVecVal n 256)
  | AddrBitVec b => ret b
  end.

Definition requires_statespace (opts : Options.t Iprof) : bool :=
  Options.compulsory_statespace opts
  || (0 <? List.length (get_detection_modules POST (Options.modules opts)))%nat.

Definition creator_account : Account.t :=
  Account.mk (AddrStr (hex (creator ACTORS))) (Bytecode "") None None false.

Definition attacker_account : Account.t :=
  Account.mk (AddrStr (hex (attacker ACTORS))) (Bytecode "") None None false.

(** [self.accounts] *)
Definition bootstrap_accounts (contract : Contract.t)
    : dict string Account.t :=
  if negb (truthy (Contract.creation_code contract))
  then setitem String.eqb [] (hex (attacker ACTORS)) attacker_account
  else setitem String.eqb
         (setitem String.eqb [] (hex (creator ACTORS)) creator_account)
         (hex (attacker ACTORS)) attacker_account.

(** The account of the code that is already deployed at [address]. *)
Definition deployed_account (contract : Contract.t) (address : Value)
    (dynloader : option DynLoader) : Account.t :=
  Account.mk (AddrBitVec address)
    (Disassembled (Contract.disassembly contract))
    dynloader
    (Some (Contract.name contract))
    (match dynloader with
     | Some d => if storage_loading d then true else false
     | None => false
     end).

(** The three branches that start the engine. *)
Definition dispatch (contract : Contract.t) (address : Value)
    (dynloader : option DynLoader) : Eff.M (E := Event Iprof HookDict) unit :=
  match Contract.class contract with
  | SolidityContract =>
      Eff.emit (SymExecCreation (Contract.creation_code contract)
                  (Contract.name contract))
  | EVMContract =>
      if truthy (Contract.creation_code contract)
      then Eff.emit (SymExecCreation (Contract.creation_code contract)
                       (Contract.name contract))
      else
        let account := deployed_account contract address dynloader in
        Eff.emit (NewAccount account) ;;;
        Eff.emit (PutAccount account) ;;;
        Eff.emit (SymExecTarget (bv_value address))
  | OtherContract =>
      let account := deployed_account contract address dynloader in
      Eff.emit (NewAccount account) ;;;
      Eff.emit (PutAccount account) ;;;
      Eff.emit (SymExecTarget (bv_value address))
  end.

Definition __init__ (contract : Contract.t) (address : Address)
    (strategy : string) (opts : Options.t Iprof)
    : Eff.M (E := Event Iprof HookDict) (SymExecWrapper.t Iprof Edge) :=
  address <~ Eff.lift (normalize_address address) ;;
  s_strategy <~ Eff.lift (select_strategy strategy) ;;
  Eff.emit (NewAccount creator_account) ;;;
  Eff.emit (NewAccount attacker_account) ;;;
  let requires_statespace := requires_statespace opts in
  let accounts := bootstrap_accounts contract in
  Eff.emit (BuildPlugin instruction_coverage_plugin) ;;;
  let laser :=
    LaserEVM.mk (Options.dynloader opts) (Options.max_depth opts)
      (Options.execution_timeout opts) s_strategy
      (Options.create_timeout opts) (Options.transaction_count opts)
      requires_statespace (Options.iprof opts)
      (Options.enable_coverage_strategy opts) instruction_coverage_plugin in
  Eff.emit (NewLaserEVM laser) ;;;
  match Options.loop_bound opts with
  | Some loop_bound => Eff.emit (ExtendStrategy loop_bound)
  | None => Eff.ret tt
  end ;;;
  Eff.emit NewPluginLoader ;;;
  Eff.emit (BuildPlugin mutation_pruner_plugin) ;;;
  Eff.emit (LoadPlugin mutation_pruner_plugin) ;;;
  Eff.emit (LoadPlugin instruction_coverage_plugin) ;;;
  Eff.when (negb (Options.disable_dependency_pruning opts))
    (Eff.emit (BuildPlugin dependency_pruner_plugin) ;;;
     Eff.emit (LoadPlugin dependency_pruner_plugin)) ;;;
  Eff.emit NewWorldState ;;;
  Eff.for_each (values accounts) (fun account => Eff.emit (PutAccount account)) ;;;
  Eff.when (Options.run_analysis_modules opts)
    (let analysis_modules :=
       get_detection_modules CALLBACK (Options.modules opts) in
     Eff.emit (RegisterHooks "pre"
                 (get_detection_module_hooks analysis_modules "pre")) ;;;
     Eff.emit (RegisterHooks "post"
                 (get_detection_module_hooks analysis_modules "post"))) ;;;
  dispatch contract address (Options.dynloader opts) ;;;
  if negb requires_statespace then
    Eff.ret (SymExecWrapper.mk accounts laser None None None)
  else
    log <~ Eff.history ;;
    let nodes := laser_nodes log in
    let edges := laser_edges log in
    calls <~ Eff.lift (parse_calls PRECOMPILE_COUNT nodes) ;;
    Eff.ret (SymExecWrapper.mk accounts laser (Some nodes) (Some edges)
               (Some calls)).

(** The engine as [__init__] builds it. *)
Definition laser_of (s_strategy : Strategy) (opts : Options.t Iprof)
    : LaserEVM.t Iprof :=
  LaserEVM.mk (Options.dynloader opts) (Options.max_depth opts)
    (Options.execution_timeout opts) s_strategy
    (Options.create_timeout opts) (Options.transaction_count opts)
    (requires_statespace opts) (Options.iprof opts)
    (Options.enable_coverage_strategy opts) instruction_coverage_plugin.

(** The events of [__init__] before it starts the engine. *)
Definition setup_events (contract : Contract.t) (s_strategy : Strategy)
    (opts : Options.t Iprof) : list (Event Iprof HookDict) :=
  [NewAccount creator_account; NewAccount attacker_account;
   BuildPlugin instruction_coverage_plugin;
   NewLaserEVM (laser_of s_strategy opts)]
  ++ match Options.loop_bound opts with
     | Some loop_bound => [ExtendStrategy loop_bound]
     | None => []
     end
  ++ [NewPluginLoader; BuildPlugin mutation_pruner_plugin;
      LoadPlugin mutation_pruner_plugin;
      LoadPlugin instruction_coverage_plugin]
  ++ (if Options.disable_dependency_pruning opts then []
      else [BuildPlugin dependency_pruner_plugin;
            LoadPlugin dependency_pruner_plugin])
  ++ [NewWorldState]
  ++ map PutAccount (values (bootstrap_accounts contract))
  ++ (if Options.run_analysis_modules opts
      then
        [RegisterHooks "pre"
           (get_detection_module_hooks
              (get_detection_modules CALLBACK (Options.modules opts)) "pre");
         RegisterHooks "post"
           (get_detection_module_hooks
              (get_detection_modules CALLBACK (Options.modules opts)) "post")]
      else []).

(** The events that start the engine. *)
Definition dispatch_events (contract : Contract.t) (address : Value)
    (dynloader : option DynLoader) : list (Event Iprof HookDict) :=
  if runs_creation contract
  then [SymExecCreation (Contract.creation_code contract)
          (Contract.name contract)]
  else [NewAccount (deployed_account contract address dynloader);
        PutAccount (deployed_account contract address dynloader);
        SymExecTarget (bv_value address)].

End Wrapper.

(** ** What the pass does, as relations

    The outcome of one run of the loop body, of the loop over the states of
    a node and of the loop over the keys, read off [parse_state],
    [for_states] and [for_keys]. *)

(** The number of stack items the body reads for an opcode. *)
Definition operand_count (op : string) : nat :=
  if str_in op value_calls then 7
  else if str_in op call_family then 6
  else 0.

(** The stack of [st] has fewer items than the body reads. *)
Definition short_stack (st : GlobalState) : Prop :=
  (List.length (stack (mstate st))
   < operand_count (opcode (get_current_instruction st)))%nat.

(** What one run of the body can do to [self.calls]. *)
Inductive parsed (PC : Z) (nodes : dict Z Node) (key : Z) (st : GlobalState)
    (idx : nat) : result (list Call * Flow) -> Prop :=
| parsed_index_error :
    (List.length (stack (mstate st))
     < operand_count (opcode (get_current_instruction st)))%nat ->
    parsed PC nodes key st idx (raise IndexError)
| parsed_key_error :
    get Z.eqb nodes key = None ->
    parsed PC nodes key st idx (raise KeyError)
| parsed_skip :
    str_in (opcode (get_current_instruction st)) call_family = false ->
    parsed PC nodes key st idx (ret ([], Fallthrough))
| parsed_prebuilt t :
    (operand_count (opcode (get_current_instruction st))
     <= List.length (stack (mstate st)))%nat ->
    str_in (opcode (get_current_instruction st)) value_calls = true ->
    getitem_neg (stack (mstate st)) 2 = ret (Concrete t) ->
    0 < t <= PC ->
    parsed PC nodes key st idx (ret ([], Continue))
| parsed_call c :
    (operand_count (opcode (get_current_instruction st))
     <= List.length (stack (mstate st)))%nat ->
    str_in (opcode (get_current_instruction st)) call_family = true ->
    get Z.eqb nodes key = Some (node c) ->
    state c = st ->
    state_index c = idx ->
    call_type c = opcode (get_current_instruction st) ->
    (exists v, getitem_neg (stack (mstate st)) 2 = ret v /\ to c = get_variable v) ->
    (str_in (call_type c) value_calls = true ->
     forall t, val (to c) = Concrete t -> ~ 0 < t <= PC) ->
    parsed PC nodes key st idx (ret ([c], Fallthrough)).

(** [state_index] at the start of the next run of the body. *)
Definition next_index (idx : nat) (f : Flow) : nat :=
  match f with
  | Fallthrough => S idx
  | Continue => idx
  end.

Inductive states_parsed (PC : Z) (nodes : dict Z Node) (key : Z)
    : list GlobalState -> nat -> result (list Call) -> Prop :=
| sp_nil idx : states_parsed PC nodes key [] idx (ret [])
| sp_raise st sts idx e :
    parsed PC nodes key st idx (raise e) ->
    states_parsed PC nodes key (st :: sts) idx (raise e)
| sp_cons st sts idx new f r :
    parsed PC nodes key st idx (ret (new, f)) ->
    states_parsed PC nodes key sts (next_index idx f) r ->
    states_parsed PC nodes key (st :: sts) idx (x <- r ;; ret (new ++ x)).

Inductive keys_parsed (PC : Z) (nodes : dict Z Node)
    : list Z -> result (list Call) -> Prop :=
| kp_nil : keys_parsed PC nodes [] (ret [])
| kp_missing key ks :
    get Z.eqb nodes key = None ->
    keys_parsed PC nodes (key :: ks) (raise KeyError)
| kp_cons key ks n r1 r2 :
    get Z.eqb nodes key = Some n ->
    states_parsed PC nodes key (states n) 0 r1 ->
    keys_parsed PC nodes ks r2 ->
    keys_parsed PC nodes (key :: ks) (x <- r1 ;; y <- r2 ;; ret (x ++ y)).

(** The nodes the outer loop visits. *)
Definition visited (nodes : dict Z Node) (ks : list Z) (key : Z) (n : Node)
    : Prop :=
  In key ks /\ get Z.eqb nodes key = Some n.

(** [stack[-2]] is a definite address of a prebuilt. *)
Definition prebuilt_target (PC : Z) (st : GlobalState) : bool :=
  match getitem_neg (stack (mstate st)) 2 with
  | inr (Concrete t) => (0 <? t) && (t <=? PC)
  | _ => false
  end.

(** The states the pass makes a record of. *)
Definition qualifies (PC : Z) (st : GlobalState) : bool :=
  let op := opcode (get_current_instruction st) in
  str_in op call_family && negb (str_in op value_calls && prebuilt_target PC st).

(** [self.nodes[key].states] *)
Definition states_at (nodes : dict Z Node) (key : Z) : list GlobalState :=
  match get Z.eqb nodes key with
  | Some n => states n
  | None => []
  end.

(** ** Sample statespaces and runs *)

Definition prebuilt_call : GlobalState :=
  mkGlobalState (mkInstruction "CALL" None)
    (mkMachineState
       [Concrete 0; Concrete 0; Concrete 0; Concrete 0; Concrete 0;
        Concrete 1; Concrete 2300] []).

Definition user_call : GlobalState :=
  mkGlobalState (mkInstruction "CALL" None)
    (mkMachineState
       [Concrete 0; Concrete 0; Concrete 4; Concrete 0; Concrete 0;
        Concrete 57005; Concrete 2300]
       [Concrete 170; Concrete 187; Concrete 204; Concrete 221]).

Definition two_calls : Node := mkNode 0 [prebuilt_call; user_call].

Definition symbolic_call : GlobalState :=
  mkGlobalState (mkInstruction "CALLCODE" None)
    (mkMachineState
       [Concrete 0; Concrete 0; Symbolic "calldatasize"; Concrete 0;
        Concrete 0; Symbolic "calldata_4"; Concrete 2300]
       [Concrete 170; Concrete 187]).

Definition static_call : GlobalState :=
  mkGlobalState (mkInstruction "STATICCALL" None)
    (mkMachineState
       [Concrete 32; Concrete 0; Concrete 32; Concrete 0; Concrete 2;
        Symbolic "gas"] []).

Definition short_call : GlobalState :=
  mkGlobalState (mkInstruction "DELEGATECALL" None)
    (mkMachineState [Concrete 0; Concrete 57005; Concrete 2300] []).

Definition sample_nodes : dict Z Node :=
  [(0, two_calls); (1, mkNode 1 [symbolic_call; static_call])].

Definition sample_actors : Actors :=
  mkActors 0xAFFEAFFEAFFEAFFEAFFEAFFEAFFEAFFEAFFEAFFE
           0xDEADBEEFDEADBEEFDEADBEEFDEADBEEFDEADBEEF.

Definition deployed_contract : Contract.t :=
  Contract.mk EVMContract "Unknown" "" (mkDisassembly "6000").

Definition created_contract : Contract.t :=
  Contract.mk SolidityContract "Token" "6080" (mkDisassembly "6000").

(** A run of [__init__] on an engine that finds [sample_nodes]. *)
Definition sample_init :=
  __init__ unit unit unit unit 8 sample_actors
    (fun s => ret (HexString.to_Z s))
    (fun _ _ => []) (fun _ _ => tt) (fun _ => sample_nodes) (fun _ => []).

Definition no_statespace : Options.t unit :=
  Options.mk (Some (mkDynLoader true)) 22 None (Some 3) None 2 None false
    None false true false "".

(** ** More about the pass and the log *)

(** The states the prebuilt filter leaves by its [continue]. *)
Definition filtered (PC : Z) (st : GlobalState) : bool :=
  str_in (opcode (get_current_instruction st)) value_calls
  && prebuilt_target PC st.

(** The plugins given to [plugin_loader.load], in the order of the log. *)
Definition loaded_plugins {Iprof HookDict} (log : list (Event Iprof HookDict))
    : list Plugin :=
  flat_map (fun ev => match ev with LoadPlugin p => [p] | _ => [] end) log.

(** The accounts given to [world_state.put_account]. *)
Definition put_accounts {Iprof HookDict} (log : list (Event Iprof HookDict))
    : list Account.t :=
  flat_map (fun ev => match ev with PutAccount a => [a] | _ => [] end) log.

(** The calls of [laser.register_hooks]. *)
Definition registered_hooks {Iprof HookDict}
    (log : list (Event Iprof HookDict)) : list (string * HookDict) :=
  flat_map (fun ev => match ev with
                      | RegisterHooks t d => [(t, d)]
                      | _ => []
                      end) log.

(** The bounds given to [laser.extend_strategy]. *)
Definition strategy_extensions {Iprof HookDict}
    (log : list (Event Iprof HookDict)) : list Z :=
  flat_map (fun ev => match ev with ExtendStrategy b => [b] | _ => [] end) log.

(** The engines that were built. *)
Definition engines {Iprof HookDict} (log : list (Event Iprof HookDict))
    : list (LaserEVM.t Iprof) :=
  flat_map (fun ev => match ev with NewLaserEVM l => [l] | _ => [] end) log.

(** The records of [sample_nodes] when [PRECOMPILE_COUNT] is 8. *)
Definition user_record : Call :=
  mkCall two_calls user_call 0 "CALL"
    (mkVariable (Concrete 57005) CONCRETE) (mkVariable (Concrete 2300) CONCRETE)
    (Some (mkVariable (Concrete 0) CONCRETE))
    (Some [Concrete 170; Concrete 187; Concrete 204; Concrete 221]).

Definition symbolic_record : Call :=
  mkCall (mkNode 1 [symbolic_call; static_call]) symbolic_call 0 "CALLCODE"
    (mkVariable (Symbolic "calldata_4") SYMBOLIC)
    (mkVariable (Concrete 2300) CONCRETE)
    (Some (mkVariable (Concrete 0) CONCRETE)) None.

Definition static_record : Call :=
  mkCall (mkNode 1 [symbolic_call; static_call]) static_call 1 "STATICCALL"
    (mkVariable (Concrete 2) CONCRETE) (mkVariable (Symbolic "gas") SYMBOLIC)
    None None.

Definition sample_calls : list Call :=
  [user_record; symbolic_record; static_record].

(** A run of [__init__] whose [int(address, 16)] rejects every string. *)
Definition strict_init :=
  __init__ unit unit unit unit 8 sample_actors
    (fun _ => raise (ValueError "invalid literal for int() with base 16"))
    (fun _ _ => []) (fun _ _ => tt) (fun _ => sample_nodes) (fun _ => []).

(** What the body reads from the stack of a state it records. *)
Definition record_fields (c : Call) : Prop :=
  let stk := stack (mstate (state c)) in
  call_type c = opcode (get_current_instruction (state c))
  /\ str_in (call_type c) call_family = true
  /\ (exists g t,
        getitem_neg stk 1 = ret g /\ getitem_neg stk 2 = ret t
        /\ gas c = get_variable g /\ to c = get_variable t)
  /\ (str_in (call_type c) value_calls = true ->
      exists v o s,
        getitem_neg stk 3 = ret v /\ getitem_neg stk 4 = ret o
        /\ getitem_neg stk 5 = ret s
        /\ value c = Some (get_variable v)
        /\ data c = match o, s with
                    | Concrete start, Concrete sz =>
                        Some (Memory.slice (memory (mstate (state c))) start
                                (sz + start))
                    | _, _ => None
                    end)
  /\ (str_in (call_type c) value_calls = false ->
      value c = None /\ data c = None).

(** The number of states before position [pos] that the filter skipped. *)
Definition skipped_before (PC : Z) (sts : list GlobalState) (pos : nat) : nat :=
  List.length (filter (filtered PC) (firstn pos sts)).



(** * Proofs *)

(** ** Python sequences *)

Lemma getitem_neg_short {A} (l : list A) (k : nat) :
  (List.length l < k)%nat -> getitem_neg l k = raise IndexError.
Proof.
  intros H. unfold getitem_neg. destruct k as [|k]; [reflexivity|].
  destruct (Nat.leb_spec (S k) (List.length l)); [lia | reflexivity].
Qed.

Lemma getitem_neg_nth {A} (l : list A) (k : nat) :
  (0 < k <= List.length l)%nat ->
  exists x, getitem_neg l k = ret x /\ nth_error l (List.length l - k) = Some x.
Proof.
  intros [Hk Hl]. unfold getitem_neg. destruct k as [|k]; [lia|].
  destruct (Nat.leb_spec (S k) (List.length l)); [|lia].
  destruct (nth_error l (List.length l - S k)) eqn:E.
  - eauto.
  - apply nth_error_None in E. lia.
Qed.

Lemma getitem_neg_app {A} (rest l : list A) (k : nat) :
  (0 < k <= List.length l)%nat ->
  getitem_neg (rest ++ l) k = getitem_neg l k.
Proof.
  intros [Hk Hl]. unfold getitem_neg. destruct k as [|k]; [lia|].
  rewrite length_app.
  destruct (Nat.leb_spec (S k) (List.length rest + List.length l)); [|lia].
  destruct (Nat.leb_spec (S k) (List.length l)); [|lia].
  rewrite nth_error_app2 by lia.
  replace (List.length rest + List.length l - S k - List.length rest)%nat
    with (List.length l - S k)%nat by lia.
  reflexivity.
Qed.

(** A list of at least [k] items ends in [k] items. *)
Lemma split_top {A} (l : list A) (k : nat) :
  (k <= List.length l)%nat ->
  exists rest top, l = rest ++ top /\ List.length top = k.
Proof.
  intros H. exists (firstn (List.length l - k) l), (skipn (List.length l - k) l).
  split; [symmetry; apply firstn_skipn|]. rewrite length_skipn. lia.
Qed.

(** ** The body of the inner loop *)

Lemma is_prebuilt_get_variable PC (v : Value) :
  is_prebuilt PC (get_variable v) =
  ret match v with
      | Concrete t => (0 <? t) && (t <=? PC)
      | Symbolic _ => false
      end.
Proof. destruct v; reflexivity. Qed.

Lemma value_calls_family op :
  str_in op value_calls = true -> str_in op call_family = true.
Proof.
  unfold str_in, value_calls, call_family. simpl.
  intros H. rewrite !orb_false_r in *. apply orb_true_iff in H.
  destruct H as [-> | ->]; [reflexivity | apply orb_true_r].
Qed.

Lemma str_in_value_calls op :
  str_in op value_calls = true <-> op = "CALL" \/ op = "CALLCODE".
Proof.
  unfold str_in, value_calls. simpl. rewrite orb_false_r, orb_true_iff, !String.eqb_eq.
  tauto.
Qed.

Lemma parse_state_value_call PC nodes key st idx calls rest
    memoutsz memoutstart meminsz meminstart value_ to_ gas_ :
  str_in (opcode (get_current_instruction st)) value_calls = true ->
  stack (mstate st) =
    rest ++ [memoutsz; memoutstart; meminsz; meminstart; value_; to_; gas_] ->
  parse_state PC nodes key st idx calls =
    (prebuilt <- is_prebuilt PC (get_variable to_) ;;
     if prebuilt then ret (calls, Continue)
     else
       n <- getitem Z.eqb nodes key ;;
       ret (calls ++
              [mkCall n st idx (opcode (get_current_instruction st))
                 (get_variable to_) (get_variable gas_)
                 (Some (get_variable value_))
                 match meminstart, meminsz with
                 | Concrete start, Concrete sz =>
                     Some (Memory.slice (memory (mstate st)) start (sz + start))
                 | _, _ => None
                 end],
            Fallthrough)).
Proof.
  intros Hop Hstk. unfold parse_state.
  rewrite (value_calls_family _ Hop), Hop, Hstk.
  rewrite !getitem_neg_app by (simpl; lia).
  cbn [getitem_neg Nat.leb List.length nth_error Nat.sub bind ret].
  rewrite is_prebuilt_get_variable. cbn [bind ret].
  match goal with |- context [if ?b then _ else _] => destruct b end; [reflexivity|].
  destruct meminstart, meminsz; cbn; destruct (getitem Z.eqb nodes key); reflexivity.
Qed.

Lemma parse_state_other_call PC nodes key st idx calls rest
    memoutsz memoutstart meminsz meminstart to_ gas_ :
  str_in (opcode (get_current_instruction st)) call_family = true ->
  str_in (opcode (get_current_instruction st)) value_calls = false ->
  stack (mstate st) =
    rest ++ [memoutsz; memoutstart; meminsz; meminstart; to_; gas_] ->
  parse_state PC nodes key st idx calls =
    (n <- getitem Z.eqb nodes key ;;
     ret (calls ++
            [mkCall n st idx (opcode (get_current_instruction st))
               (get_variable to_) (get_variable gas_) None None],
          Fallthrough)).
Proof.
  intros Hfam Hop Hstk. unfold parse_state.
  rewrite Hfam, Hop, Hstk.
  rewrite !getitem_neg_app by (simpl; lia).
  reflexivity.
Qed.

Lemma parse_state_not_call PC nodes key st idx calls :
  str_in (opcode (get_current_instruction st)) call_family = false ->
  parse_state PC nodes key st idx calls = ret (calls, Fallthrough).
Proof. intros H. unfold parse_state. rewrite H. reflexivity. Qed.

Lemma getitem_neg_error {A} (l : list A) (k : nat) e :
  getitem_neg l k = inl e -> e = IndexError /\ (k = 0 \/ List.length l < k)%nat.
Proof.
  unfold getitem_neg. destruct k as [|k].
  - intros H. inversion H. split; [reflexivity | lia].
  - destruct (Nat.leb_spec (S k) (List.length l)).
    + destruct (nth_error l (List.length l - S k)) eqn:E; [discriminate|].
      apply nth_error_None in E. lia.
    + intros H'. inversion H'. split; [reflexivity | lia].
Qed.

Ltac bind_stack k :=
  match goal with
  | |- context [getitem_neg ?l k] =>
      let E := fresh "E" in
      destruct (getitem_neg l k) eqn:E;
      [ apply getitem_neg_error in E; destruct E as [-> _]; reflexivity
      | cbn [bind] ]
  end.

Lemma parse_state_short PC nodes key st idx calls :
  (List.length (stack (mstate st))
   < operand_count (opcode (get_current_instruction st)))%nat ->
  parse_state PC nodes key st idx calls = raise IndexError.
Proof.
  unfold operand_count, parse_state.
  destruct (str_in (opcode (get_current_instruction st)) value_calls) eqn:Hv.
  - rewrite (value_calls_family _ Hv). intros Hlen.
    bind_stack 1%nat. bind_stack 2%nat. bind_stack 3%nat. bind_stack 4%nat.
    bind_stack 5%nat. bind_stack 6%nat.
    rewrite (getitem_neg_short _ 7) by exact Hlen. reflexivity.
  - destruct (str_in (opcode (get_current_instruction st)) call_family) eqn:Hf;
      [|lia].
    intros Hlen.
    bind_stack 1%nat. bind_stack 2%nat. bind_stack 3%nat. bind_stack 4%nat.
    bind_stack 5%nat.
    rewrite (getitem_neg_short _ 6) by exact Hlen. reflexivity.
Qed.

(** The top of a stack that is deep enough. *)
Lemma stack_top7 {A} (l : list A) :
  (7 <= List.length l)%nat ->
  exists rest a b c d e f g, l = rest ++ [a; b; c; d; e; f; g].
Proof.
  intros H. destruct (split_top l 7 H) as (rest & top & -> & Htop).
  do 7 (destruct top as [|? top]; [discriminate|]).
  destruct top; [|discriminate]. eauto 10.
Qed.

Lemma stack_top6 {A} (l : list A) :
  (6 <= List.length l)%nat ->
  exists rest a b c d e f, l = rest ++ [a; b; c; d; e; f].
Proof.
  intros H. destruct (split_top l 6 H) as (rest & top & -> & Htop).
  do 6 (destruct top as [|? top]; [discriminate|]).
  destruct top; [|discriminate]. eauto 10.
Qed.

Lemma getitem_get (nodes : dict Z Node) key :
  getitem Z.eqb nodes key =
  match get Z.eqb nodes key with Some n => ret n | None => raise KeyError end.
Proof. reflexivity. Qed.

Lemma parse_state_spec PC nodes key st idx :
  exists r, parsed PC nodes key st idx r /\
    forall calls,
      parse_state PC nodes key st idx calls =
      (x <- r ;; ret (calls ++ fst x, snd x)).
Proof.
  destruct (Nat.lt_ge_cases (List.length (stack (mstate st)))
              (operand_count (opcode (get_current_instruction st)))) as [Hlt|Hge].
  { eexists. split; [apply parsed_index_error, Hlt|]. intros calls.
    rewrite parse_state_short by exact Hlt. reflexivity. }
  pose proof Hge as Hcount. unfold operand_count in Hge.
  destruct (str_in (opcode (get_current_instruction st)) value_calls) eqn:Hv.
  - destruct (stack_top7 _ Hge) as (rest & a & b & c & d & e & f & g & Hstk).
    pose proof (fun calls =>
      parse_state_value_call PC nodes key st idx calls _ _ _ _ _ _ _ _ Hv Hstk)
      as Heq.
    assert (Hto : getitem_neg (stack (mstate st)) 2 = ret f).
    { rewrite Hstk, getitem_neg_app by (simpl; lia). reflexivity. }
    rewrite is_prebuilt_get_variable in Heq. cbn [bind ret] in Heq.
    rewrite getitem_get in Heq.
    destruct f as [t|s].
    + destruct ((0 <? t) && (t <=? PC)) eqn:Hp.
      * exists (ret ([], Continue)). split.
        -- apply (parsed_prebuilt _ _ _ _ _ t Hcount Hv Hto).
           apply andb_true_iff in Hp. lia.
        -- intros calls. rewrite Heq. cbn. rewrite app_nil_r. reflexivity.
      * destruct (get Z.eqb nodes key) as [n|] eqn:Hn.
        -- eexists (ret ([_], Fallthrough)). split; [|intros calls; apply Heq].
           apply parsed_call; cbn [node state state_index call_type to];
             try reflexivity; try assumption.
           ++ apply value_calls_family, Hv.
           ++ exists (Concrete t). split; [assumption | reflexivity].
           ++ intros _ t' [= <-]. apply andb_false_iff in Hp. lia.
        -- eexists. split; [apply parsed_key_error, Hn | intros calls; apply Heq].
    + destruct (get Z.eqb nodes key) as [n|] eqn:Hn.
      * eexists (ret ([_], Fallthrough)). split; [|intros calls; apply Heq].
        apply parsed_call; cbn [node state state_index call_type to];
          try reflexivity; try assumption.
        -- apply value_calls_family, Hv.
        -- exists (Symbolic s). split; [assumption | reflexivity].
        -- intros _ t' [=].
      * eexists. split; [apply parsed_key_error, Hn | intros calls; apply Heq].
  - destruct (str_in (opcode (get_current_instruction st)) call_family) eqn:Hf.
    + destruct (stack_top6 _ Hge) as (rest & a & b & c & d & e & f & Hstk).
      pose proof (fun calls =>
        parse_state_other_call PC nodes key st idx calls _ _ _ _ _ _ _ Hf Hv Hstk)
        as Heq.
      assert (Hto : getitem_neg (stack (mstate st)) 2 = ret e).
      { rewrite Hstk, getitem_neg_app by (simpl; lia). reflexivity. }
      rewrite getitem_get in Heq.
      destruct (get Z.eqb nodes key) as [n|] eqn:Hn.
      * eexists (ret ([_], Fallthrough)). split; [|intros calls; apply Heq].
        apply parsed_call; cbn [node state state_index call_type to];
          try reflexivity; try assumption.
        -- exists e. split; [assumption | reflexivity].
        -- rewrite Hv. discriminate.
      * eexists. split; [apply parsed_key_error, Hn | intros calls; apply Heq].
    + exists (ret ([], Fallthrough)). split; [apply parsed_skip, Hf|].
      intros calls.
      rewrite parse_state_not_call by exact Hf. cbn. rewrite app_nil_r. reflexivity.
Qed.

(** ** The loops *)

Lemma for_states_spec PC nodes key sts : forall idx,
  exists r, states_parsed PC nodes key sts idx r /\
    forall calls,
      for_states PC nodes key sts idx calls = (x <- r ;; ret (calls ++ x)).
Proof.
  induction sts as [|st sts IH]; intros idx.
  - exists (ret []). split; [constructor|]. intros calls. cbn.
    rewrite app_nil_r. reflexivity.
  - destruct (parse_state_spec PC nodes key st idx) as ([e | [new f]] & Hp & Heq).
    + exists (raise e). split; [apply sp_raise, Hp|]. intros calls.
      cbn [for_states]. rewrite Heq. reflexivity.
    + destruct (IH (next_index idx f)) as (r & Hr & Hreq).
      exists (x <- r ;; ret (new ++ x)). split; [eapply sp_cons; eassumption|].
      intros calls. cbn [for_states]. rewrite Heq. cbn [bind ret fst snd].
      assert (E : for_states PC nodes key sts (next_index idx f) (calls ++ new)
                  = (x <- (x <- r ;; ret (new ++ x)) ;; ret (calls ++ x))).
      { rewrite Hreq. destruct r; cbn; [reflexivity|]. rewrite app_assoc.
        reflexivity. }
      destruct f; exact E.
Qed.

Lemma for_keys_spec PC nodes ks :
  exists r, keys_parsed PC nodes ks r /\
    forall calls, for_keys PC nodes ks calls = (x <- r ;; ret (calls ++ x)).
Proof.
  induction ks as [|key ks (r2 & Hr2 & Heq2)].
  - exists (ret []). split; [constructor|]. intros calls. cbn.
    rewrite app_nil_r. reflexivity.
  - destruct (get Z.eqb nodes key) as [n|] eqn:Hn.
    + destruct (for_states_spec PC nodes key (states n) 0%nat) as (r1 & Hr1 & Heq1).
      exists (x <- r1 ;; y <- r2 ;; ret (x ++ y)).
      split; [eapply kp_cons; eassumption|]. intros calls.
      cbn [for_keys]. rewrite getitem_get, Hn. cbn [bind ret].
      rewrite Heq1. destruct r1 as [e|x]; cbn; [reflexivity|].
      rewrite Heq2. destruct r2 as [e|y]; cbn; [reflexivity|].
      rewrite app_assoc. reflexivity.
    + exists (raise KeyError). split; [apply kp_missing, Hn|]. intros calls.
      cbn [for_keys]. rewrite getitem_get, Hn. reflexivity.
Qed.

Lemma parse_calls_spec PC nodes :
  keys_parsed PC nodes (keys nodes) (parse_calls PC nodes).
Proof.
  destruct (for_keys_spec PC nodes (keys nodes)) as (r & Hr & Heq).
  unfold parse_calls. rewrite Heq. destruct r; exact Hr.
Qed.

(** ** Dicts *)

Lemma get_In {V} (d : dict Z V) key v :
  get Z.eqb d key = Some v -> In (key, v) d.
Proof.
  induction d as [|[k' v'] d IH]; cbn; [discriminate|].
  destruct (Z.eqb_spec key k') as [->|]; [intros [= ->]; auto | auto].
Qed.

Lemma get_keys {V} (d : dict Z V) key :
  In key (keys d) -> exists v, get Z.eqb d key = Some v.
Proof.
  induction d as [|[k' v'] d IH]; cbn; [contradiction|].
  destruct (Z.eqb_spec key k') as [->|]; [eauto|].
  intros [E | H]; [congruence | auto].
Qed.

Lemma get_NoDup {V} (d : dict Z V) key v :
  NoDup (keys d) -> In (key, v) d -> get Z.eqb d key = Some v.
Proof.
  induction d as [|[k' v'] d IH]; cbn; [contradiction|].
  intros Hnd [[= -> ->] | H].
  - rewrite Z.eqb_refl. reflexivity.
  - inversion Hnd as [|? ? Hnotin Hnd']; subst.
    destruct (Z.eqb_spec key k') as [->|]; [|auto].
    exfalso. apply Hnotin. apply (in_map fst) in H. exact H.
Qed.

(** ** The records of a run *)

Lemma states_parsed_error PC nodes key sts idx r : 
  states_parsed PC nodes key sts idx r ->
  forall e, r = raise e ->
    (e = IndexError /\ exists st, In st sts /\ short_stack st)
    \/ (e = KeyError /\ get Z.eqb nodes key = None).
Proof.
  induction 1 as [idx | st sts idx e' Hp | st sts idx new f r Hp Hr IH];
    intros e He.
  - discriminate.
  - injection He as ->. inversion Hp; subst.
    + left. split; [reflexivity|]. exists st. split; [left; reflexivity | assumption].
    + right. split; [reflexivity | assumption].
  - destruct r as [e0|out]; [|discriminate]. injection He as ->.
    destruct (IH _ eq_refl) as [(-> & st' & Hin & Hs) | H']; [left | right; exact H'].
    split; [reflexivity|]. exists st'. split; [right; exact Hin | exact Hs].
Qed.

Lemma parsed_ok_enough PC nodes key st idx x :
  parsed PC nodes key st idx (ret x) -> ~ short_stack st.
Proof.
  unfold short_stack. inversion 1; subst; try lia.
  unfold operand_count.
  match goal with H : str_in _ call_family = false |- _ => rewrite H end.
  destruct (str_in _ value_calls) eqn:Hv; [|lia].
  apply value_calls_family in Hv. congruence.
Qed.

Lemma states_parsed_short PC nodes key sts idx r :
  states_parsed PC nodes key sts idx r ->
  forall st, In st sts -> short_stack st -> exists e, r = raise e.
Proof.
  induction 1 as [idx | st sts idx e' Hp | st sts idx new f r Hp Hr IH];
    intros st' Hin Hs.
  - contradiction.
  - eauto.
  - destruct Hin as [<- | Hin].
    + exfalso. exact (parsed_ok_enough _ _ _ _ _ _ Hp Hs).
    + destruct (IH _ Hin Hs) as [e ->]. exists e. reflexivity.
Qed.

Lemma parsed_total PC nodes key st idx r n :
  parsed PC nodes key st idx r ->
  get Z.eqb nodes key = Some n -> ~ short_stack st -> exists x, r = ret x.
Proof.
  inversion 1; subst; intros Hn Hs; eauto; [contradiction | congruence].
Qed.

Lemma states_parsed_total PC nodes key sts idx r n :
  states_parsed PC nodes key sts idx r ->
  get Z.eqb nodes key = Some n ->
  (forall st, In st sts -> ~ short_stack st) ->
  exists out, r = ret out.
Proof.
  induction 1 as [idx | st sts idx e' Hp | st sts idx new f r Hp Hr IH];
    intros Hn Hall.
  - eauto.
  - destruct (parsed_total _ _ _ _ _ _ _ Hp Hn (Hall _ (or_introl eq_refl)))
      as [x Hx]. discriminate.
  - destruct (IH Hn (fun st' H' => Hall st' (or_intror H'))) as [out ->].
    cbn. eauto.
Qed.

Lemma states_parsed_Forall PC nodes key (Q : Call -> Prop) sts idx r :
  states_parsed PC nodes key sts idx r ->
  (forall st i new f, In st sts -> parsed PC nodes key st i (ret (new, f)) ->
                      Forall Q new) ->
  forall out, r = ret out -> Forall Q out.
Proof.
  induction 1 as [idx | st sts idx e' Hp | st sts idx new f r Hp Hr IH];
    intros HQ out Hout.
  - injection Hout as <-. constructor.
  - discriminate.
  - destruct r as [e|out']; [discriminate|]. injection Hout as <-.
    apply Forall_app. split.
    + eapply HQ; [left; reflexivity | exact Hp].
    + apply IH; [|reflexivity]. intros st' i new' f' Hin. apply HQ. right. exact Hin.
Qed.

Lemma keys_parsed_error PC nodes ks r :
  keys_parsed PC nodes ks r ->
  forall e, r = raise e ->
    (e = IndexError /\
     exists key n st, visited nodes ks key n /\ In st (states n) /\ short_stack st)
    \/ (e = KeyError /\ exists key, In key ks /\ get Z.eqb nodes key = None).
Proof.
  unfold visited.
  induction 1 as [| key ks Hn | key ks n r1 r2 Hn H1 H2 IH]; intros e He.
  - discriminate.
  - injection He as <-. right. split; [reflexivity|]. exists key. cbn. auto.
  - destruct r1 as [e1|out1].
    + injection He as ->.
      destruct (states_parsed_error _ _ _ _ _ _ H1 _ eq_refl)
        as [(-> & st & Hin & Hs) | [_ Hnone]]; [|congruence].
      left. split; [reflexivity|]. exists key, n, st. cbn. auto.
    + destruct r2 as [e2|out2]; [|discriminate]. injection He as ->.
      destruct (IH _ eq_refl)
        as [(-> & k & n' & st & [Hk Hget] & Hin & Hs) | (-> & k & Hk & Hget)].
      * left. split; [reflexivity|]. exists k, n', st. cbn. auto.
      * right. split; [reflexivity|]. exists k. cbn. auto.
Qed.

Lemma keys_parsed_short PC nodes ks r :
  keys_parsed PC nodes ks r ->
  forall key n st, visited nodes ks key n -> In st (states n) -> short_stack st ->
  exists e, r = raise e.
Proof.
  unfold visited.
  induction 1 as [| key ks Hn | key ks n r1 r2 Hn H1 H2 IH];
    intros key' n' st [Hk Hget] Hin Hs.
  - contradiction.
  - eauto.
  - destruct r1 as [e1|out1]; [cbn; eauto|].
    destruct Hk as [<- | Hk].
    + assert (n' = n) as -> by congruence.
      destruct (states_parsed_short _ _ _ _ _ _ H1 _ Hin Hs). discriminate.
    + destruct (IH _ _ _ (conj Hk Hget) Hin Hs) as [e ->]. cbn. eauto.
Qed.

Lemma keys_parsed_total PC nodes ks r :
  keys_parsed PC nodes ks r ->
  (forall key, In key ks -> In key (keys nodes)) ->
  (forall key n st, visited nodes ks key n -> In st (states n) ->
                    ~ short_stack st) ->
  exists out, r = ret out.
Proof.
  unfold visited.
  induction 1 as [| key ks Hn | key ks n r1 r2 Hn H1 H2 IH]; intros Hks Hall.
  - eauto.
  - destruct (get_keys nodes key (Hks _ (or_introl eq_refl))). congruence.
  - destruct (states_parsed_total _ _ _ _ _ _ _ H1 Hn) as [out1 ->].
    { intros st Hin. apply (Hall key n); cbn; auto. }
    destruct IH as [out2 ->].
    { intros k Hk. apply Hks. right. exact Hk. }
    { intros k n' st [Hk Hget]. apply (Hall k n'). cbn. auto. }
    cbn. eauto.
Qed.

Lemma keys_parsed_Forall PC nodes (Q : Call -> Prop) ks r :
  keys_parsed PC nodes ks r ->
  (forall key st i new f, parsed PC nodes key st i (ret (new, f)) ->
                          Forall Q new) ->
  forall out, r = ret out -> Forall Q out.
Proof.
  induction 1 as [| key ks Hn | key ks n r1 r2 Hn H1 H2 IH]; intros HQ out Hout.
  - injection Hout as <-. constructor.
  - discriminate.
  - destruct r1 as [e1|out1]; [discriminate|].
    destruct r2 as [e2|out2]; [discriminate|]. injection Hout as <-.
    apply Forall_app. split.
    + eapply states_parsed_Forall; [exact H1 | | reflexivity].
      intros st i new f _ Hp. exact (HQ _ _ _ _ _ Hp).
    + apply IH; [exact HQ | reflexivity].
Qed.

(** ** The records of the pass *)

Lemma visited_keys nodes key (n : Node) :
  visited nodes (keys nodes) key n -> In (key, n) nodes.
Proof. intros [_ H]. apply get_In, H. Qed.

Lemma NoDup_visited nodes key (n : Node) :
  NoDup (keys nodes) -> In (key, n) nodes -> visited nodes (keys nodes) key n.
Proof.
  intros Hnd Hin. split; [|apply get_NoDup; assumption].
  apply (in_map fst) in Hin. exact Hin.
Qed.

Lemma parse_calls_raises PC nodes e :
  parse_calls PC nodes = raise e -> e = IndexError.
Proof.
  intros H.
  destruct (keys_parsed_error _ _ _ _ (parse_calls_spec PC nodes) _ H)
    as [[-> _] | (_ & key & Hin & Hnone)]; [reflexivity|].
  destruct (get_keys nodes key Hin). congruence.
Qed.

Lemma op_value_call op :
  op = "CALL" \/ op = "CALLCODE" -> str_in op value_calls = true.
Proof. apply str_in_value_calls. Qed.

Lemma op_other_call op :
  op = "DELEGATECALL" \/ op = "STATICCALL" ->
  str_in op call_family = true /\ str_in op value_calls = false.
Proof. intros [-> | ->]; split; reflexivity. Qed.

(** C1: a [CALL] or [CALLCODE] whose target operand [stack[-2]] is a
    definite [t] with [0 < t <= PRECOMPILE_COUNT] adds no record: the body
    leaves [self.calls] as it is and ends at its [continue]; and no record
    of a finished pass belongs to such a state, nor carries such a target
    under one of these two opcodes. *)
Theorem prebuilt_target_discarded (PC : Z) :
  (forall nodes key st idx calls rest
          memoutsz memoutstart meminsz meminstart value_ gas_ t,
      opcode (get_current_instruction st) = "CALL"
      \/ opcode (get_current_instruction st) = "CALLCODE" ->
      stack (mstate st) =
        rest ++ [memoutsz; memoutstart; meminsz; meminstart; value_;
                 Concrete t; gas_] ->
      0 < t <= PC ->
      parse_state PC nodes key st idx calls = ret (calls, Continue))
  /\ (forall nodes calls c t,
      parse_calls PC nodes = ret calls ->
      In c calls ->
      opcode (get_current_instruction (state c)) = "CALL"
      \/ opcode (get_current_instruction (state c)) = "CALLCODE" ->
      getitem_neg (stack (mstate (state c))) 2 = ret (Concrete t) ->
      ~ 0 < t <= PC)
  /\ (forall nodes calls c t,
      parse_calls PC nodes = ret calls ->
      In c calls ->
      call_type c = "CALL" \/ call_type c = "CALLCODE" ->
      type (to c) = CONCRETE ->
      val (to c) = Concrete t ->
      ~ 0 < t <= PC).
Proof.
  split; [|split].
  - intros nodes key st idx calls rest mos mo ms mi v g t Hop Hstk Ht.
    rewrite (parse_state_value_call _ _ _ _ _ _ _ _ _ _ _ _ _ _
               (op_value_call _ Hop) Hstk).
    rewrite is_prebuilt_get_variable. cbn [bind ret].
    replace ((0 <? t) && (t <=? PC)) with true; [reflexivity|].
    symmetry. apply andb_true_iff. lia.
  - intros nodes calls c t Hrun Hin Hop Hto.
    pose proof (keys_parsed_Forall PC nodes
      (fun c => forall t,
         str_in (opcode (get_current_instruction (state c))) value_calls = true ->
         getitem_neg (stack (mstate (state c))) 2 = ret (Concrete t) ->
         ~ 0 < t <= PC) _ _ (parse_calls_spec PC nodes)) as HF.
    eapply Forall_forall in HF; [eapply HF | | exact Hrun | exact Hin];
      [apply op_value_call, Hop | exact Hto |].
    clear. intros key st i new f Hp. inversion Hp; subst; constructor; [|constructor].
    intros t Hv Hto.
    match goal with H : exists v, _ |- _ => destruct H as (v & Hv2 & Htoc) end.
    rewrite Hto in Hv2. injection Hv2 as <-.
    match goal with H : str_in (call_type _) _ = true -> _ |- _ => apply H end.
    + match goal with H : call_type _ = _ |- _ => rewrite H end. exact Hv.
    + rewrite Htoc. reflexivity.
  - intros nodes calls c t Hrun Hin Hop _ Hval.
    pose proof (keys_parsed_Forall PC nodes
      (fun c => str_in (call_type c) value_calls = true ->
                forall t, val (to c) = Concrete t -> ~ 0 < t <= PC)
      _ _ (parse_calls_spec PC nodes)) as HF.
    eapply Forall_forall in HF; [eapply HF | | exact Hrun | exact Hin];
      [apply op_value_call, Hop | exact Hval |].
    clear. intros key st i new f Hp. inversion Hp; subst; constructor;
      [assumption | constructor].
Qed.

Lemma value_call_recorded (PC : Z) nodes key n st idx calls rest
    memoutsz memoutstart meminsz meminstart value_ to_ gas_ :
  opcode (get_current_instruction st) = "CALL"
  \/ opcode (get_current_instruction st) = "CALLCODE" ->
  stack (mstate st) =
    rest ++ [memoutsz; memoutstart; meminsz; meminstart; value_; to_; gas_] ->
  (forall t, to_ = Concrete t -> ~ 0 < t <= PC) ->
  getitem Z.eqb nodes key = ret n ->
  parse_state PC nodes key st idx calls =
  ret (calls ++
         [mkCall n st idx (opcode (get_current_instruction st))
            (get_variable to_) (get_variable gas_) (Some (get_variable value_))
            match meminstart, meminsz with
            | Concrete start, Concrete sz =>
                Some (Memory.slice (memory (mstate st)) start (sz + start))
            | _, _ => None
            end],
       Fallthrough).
Proof.
  intros Hop Hstk Hto Hn.
  rewrite (parse_state_value_call _ _ _ _ _ _ _ _ _ _ _ _ _ _
             (op_value_call _ Hop) Hstk).
  rewrite is_prebuilt_get_variable, Hn. cbn [bind ret].
  assert (Hp : match to_ with
               | Concrete t => (0 <? t) && (t <=? PC)
               | Symbolic _ => false
               end = false).
  { destruct to_ as [t|e]; [|reflexivity].
    apply andb_false_iff. specialize (Hto t eq_refl). lia. }
  rewrite Hp. reflexivity.
Qed.

(** C9: the pass reads the 7 topmost stack items of a [CALL] or
    [CALLCODE] state and the 6 topmost of a [DELEGATECALL] or [STATICCALL]
    state.  On a state with fewer items the body raises [IndexError]; the
    pass raises [IndexError] exactly when the statespace has such a state,
    and it returns its records when every state has enough items. *)
Theorem short_stack_raises (PC : Z) :
  (operand_count "CALL" = 7 /\ operand_count "CALLCODE" = 7
   /\ operand_count "DELEGATECALL" = 6 /\ operand_count "STATICCALL" = 6)%nat
  /\ (forall nodes key st idx calls,
        short_stack st ->
        parse_state PC nodes key st idx calls = raise IndexError)
  /\ (forall nodes,
        NoDup (keys nodes) ->
        (parse_calls PC nodes = raise IndexError <->
         exists key n st,
           In (key, n) nodes /\ In st (states n) /\ short_stack st))
  /\ (forall nodes,
        (forall key n st,
            In (key, n) nodes -> In st (states n) -> ~ short_stack st) ->
        exists calls, parse_calls PC nodes = ret calls).
Proof.
  split; [repeat split|]. split; [|split].
  - intros nodes key st idx calls Hs. apply parse_state_short, Hs.
  - intros nodes Hnd. split.
    + intros H.
      destruct (keys_parsed_error _ _ _ _ (parse_calls_spec PC nodes) _ H)
        as [(_ & key & n & st & Hv & Hin & Hs) | [[=] _]].
      exists key, n, st. split; [apply visited_keys, Hv | auto].
    + intros (key & n & st & Hn & Hin & Hs).
      destruct (keys_parsed_short _ _ _ _ (parse_calls_spec PC nodes)
                  key n st (NoDup_visited _ _ _ Hnd Hn) Hin Hs) as [e He].
      rewrite He. f_equal. apply (parse_calls_raises PC nodes), He.
  - intros nodes Hall.
    apply (keys_parsed_total _ _ _ _ (parse_calls_spec PC nodes)).
    + auto.
    + intros key n st Hv Hin.
      apply (Hall key n st); [apply visited_keys, Hv | exact Hin].
Qed.

(** C7: the evaluation of the pass on a node whose first state is a
    [CALL] to the prebuilt at address 1 and whose second state is a [CALL]
    to [0xdead].  The one record belongs to the second state, which is at
    index 1 of the states of its node, and carries [state_index] 0: the
    [continue] of the prebuilt filter has skipped [state_index += 1]. *)
Theorem state_index_after_prebuilt (PC : Z) :
  0 < PC < 57005 ->
  exists c,
    parse_calls PC [(0, two_calls)] = ret [c]
    /\ state c = user_call
    /\ nth_error (states (node c)) 1 = Some (state c)
    /\ state_index c = 0%nat.
Proof.
  intros HPC.
  assert (E : (1 <=? PC) = true) by (apply Z.leb_le; lia).
  assert (E' : (57005 <=? PC) = false) by (apply Z.leb_gt; lia).
  unfold parse_calls. cbn. rewrite E. cbn. rewrite E'. cbn.
  eexists. split; [reflexivity|]. cbn. auto.
Qed.

(** ** The order of the records *)

Lemma parsed_states PC nodes key st idx new f :
  parsed PC nodes key st idx (ret (new, f)) ->
  map state new = if qualifies PC st then [st] else [].
Proof.
  unfold qualifies, prebuilt_target. inversion 1; subst.
  - match goal with H : str_in _ call_family = false |- _ => rewrite H end.
    reflexivity.
  - match goal with H : str_in _ value_calls = true |- _ =>
      rewrite H, (value_calls_family _ H) end.
    match goal with H : getitem_neg _ _ = _ |- _ => rewrite H end.
    assert (Ht : (0 <? t) && (t <=? PC) = true) by (apply andb_true_iff; lia).
    unfold ret. cbn. rewrite Ht. reflexivity.
  - match goal with H : str_in _ call_family = true |- _ => rewrite H end.
    match goal with H : exists v, _ |- _ => destruct H as (v & Hv & Hto) end.
    match goal with H : call_type _ = _ |- _ => rewrite <- H end.
    rewrite Hv.
    destruct (str_in (call_type c) value_calls) eqn:Hvc; [|reflexivity].
    destruct v as [t|e]; [|reflexivity].
    assert (Ht : (0 <? t) && (t <=? PC) = false).
    { apply andb_false_iff.
      match goal with H : _ -> forall t, _ |- _ =>
        specialize (H eq_refl t); rewrite Hto in H; specialize (H eq_refl) end.
      lia. }
    unfold ret. cbn. rewrite Ht. reflexivity.
Qed.

Lemma states_parsed_order PC nodes key sts idx r :
  states_parsed PC nodes key sts idx r ->
  forall out, r = ret out -> map state out = filter (qualifies PC) sts.
Proof.
  induction 1 as [idx | st sts idx e' Hp | st sts idx new f r Hp Hr IH];
    intros out Hout.
  - injection Hout as <-. reflexivity.
  - discriminate.
  - destruct r as [e|out']; [discriminate|]. injection Hout as <-.
    rewrite map_app, (parsed_states _ _ _ _ _ _ _ Hp), (IH _ eq_refl).
    cbn [filter]. destruct (qualifies PC st); reflexivity.
Qed.

Lemma keys_parsed_order PC nodes ks r :
  keys_parsed PC nodes ks r ->
  forall out, r = ret out ->
    map state out = filter (qualifies PC) (flat_map (states_at nodes) ks).
Proof.
  induction 1 as [| key ks Hn | key ks n r1 r2 Hn H1 H2 IH]; intros out Hout.
  - injection Hout as <-. reflexivity.
  - discriminate.
  - destruct r1 as [e1|out1]; [discriminate|].
    destruct r2 as [e2|out2]; [discriminate|]. injection Hout as <-.
    cbn [flat_map]. rewrite map_app, filter_app.
    rewrite (states_parsed_order _ _ _ _ _ _ H1 _ eq_refl), (IH _ eq_refl).
    unfold states_at at 2. rewrite Hn. reflexivity.
Qed.

Lemma flat_map_states_at (nodes : dict Z Node) :
  NoDup (keys nodes) ->
  flat_map (states_at nodes) (keys nodes) = flat_map states (values nodes).
Proof.
  intros Hnd.
  assert (H : forall ks, (forall k, In k ks -> In k (keys nodes)) ->
     forall d, incl d nodes -> map fst d = ks ->
     flat_map (states_at nodes) ks = flat_map states (map snd d)).
  { intros ks Hks d. revert ks Hks.
    induction d as [|[k n] d IH]; intros ks Hks Hincl <-; [reflexivity|].
    cbn [map fst snd flat_map]. f_equal.
    - unfold states_at. rewrite (get_NoDup nodes k n Hnd); [reflexivity|].
      apply Hincl. left. reflexivity.
    - apply IH; [|intros x Hx; apply Hincl; right; exact Hx | reflexivity].
      intros k' Hk'. apply Hks. right. exact Hk'. }
  apply (H (keys nodes)); [auto | apply incl_refl | reflexivity].
Qed.

(** X1: the states of the records are the states of the statespace that
    qualify (call instructions that the prebuilt filter does not skip), node
    after node and, within a node, state after state. *)
Theorem parse_calls_order (PC : Z) nodes calls :
  NoDup (keys nodes) ->
  parse_calls PC nodes = ret calls ->
  map state calls = filter (qualifies PC) (flat_map states (values nodes)).
Proof.
  intros Hnd Hrun.
  rewrite (keys_parsed_order _ _ _ _ (parse_calls_spec PC nodes) _ Hrun).
  rewrite flat_map_states_at by exact Hnd. reflexivity.
Qed.

(** ** The fields of the records *)

Lemma parse_state_record PC nodes key st idx calls calls' f :
  parse_state PC nodes key st idx calls = ret (calls', f) ->
  calls' = calls
  \/ exists c,
      calls' = calls ++ [c]
      /\ get Z.eqb nodes key = Some (node c)
      /\ state c = st
      /\ record_fields c.
Proof.
  destruct (Nat.lt_ge_cases (List.length (stack (mstate st)))
              (operand_count (opcode (get_current_instruction st)))) as [Hlt|Hge].
  { rewrite parse_state_short by exact Hlt. discriminate. }
  unfold operand_count in Hge.
  destruct (str_in (opcode (get_current_instruction st)) value_calls) eqn:Hv.
  - destruct (stack_top7 _ Hge) as (rest & a & b & c & d & e & t & g & Hstk).
    rewrite (parse_state_value_call _ _ _ _ _ _ _ _ _ _ _ _ _ _ Hv Hstk).
    rewrite is_prebuilt_get_variable, getitem_get. cbn [bind ret].
    match goal with |- context [if ?x then _ else _] => destruct x end;
      [intros [= <- _]; left; reflexivity|].
    destruct (get Z.eqb nodes key) as [n|] eqn:Hn; [|discriminate].
    cbn [bind ret]. intros [= <- _]. right. eexists. split; [reflexivity|].
    cbn [node state]. split; [reflexivity|]. split; [reflexivity|].
    unfold record_fields. cbn [state call_type gas to value data].
    rewrite Hv, (value_calls_family _ Hv), Hstk.
    rewrite !getitem_neg_app by (simpl; lia).
    split; [reflexivity|]. split; [reflexivity|]. split.
    { exists g, t. repeat split; reflexivity. }
    split; [|discriminate]. intros _. exists e, d, c. repeat split; reflexivity.
  - destruct (str_in (opcode (get_current_instruction st)) call_family) eqn:Hf.
    + destruct (stack_top6 _ Hge) as (rest & a & b & c & d & t & g & Hstk).
      rewrite (parse_state_other_call _ _ _ _ _ _ _ _ _ _ _ _ _ Hf Hv Hstk).
      rewrite getitem_get.
      destruct (get Z.eqb nodes key) as [n|] eqn:Hn; [|discriminate].
      cbn [bind ret]. intros [= <- _]. right. eexists. split; [reflexivity|].
      cbn [node state]. split; [reflexivity|]. split; [reflexivity|].
      unfold record_fields. cbn [state call_type gas to value data].
      rewrite Hv, Hf, Hstk. rewrite !getitem_neg_app by (simpl; lia).
      split; [reflexivity|]. split; [reflexivity|]. split.
      { exists g, t. repeat split; reflexivity. }
      split; [discriminate | split; reflexivity].
    + rewrite parse_state_not_call by exact Hf. intros [= <- _]. left.
      reflexivity.
Qed.

(** What holds of [self.calls] before a run of the body and after each of
    them holds when the loops are over. *)
Lemma for_states_preserves PC nodes key (I : list Call -> Prop) sts :
  (forall st idx calls calls' f,
      In st sts -> I calls ->
      parse_state PC nodes key st idx calls = ret (calls', f) -> I calls') ->
  forall idx calls out,
    I calls -> for_states PC nodes key sts idx calls = ret out -> I out.
Proof.
  induction sts as [|st sts IH]; intros Hstep idx calls out HI.
  - intros [= <-]. exact HI.
  - cbn [for_states].
    destruct (parse_state PC nodes key st idx calls) as [e|[calls' f]] eqn:Hp;
      [discriminate|].
    cbn [bind fst snd].
    assert (HI' : I calls') by (eapply Hstep; [left; reflexivity | exact HI | exact Hp]).
    assert (Hstep' : forall st idx calls calls' f,
               In st sts -> I calls ->
               parse_state PC nodes key st idx calls = ret (calls', f) -> I calls').
    { intros st' i c c' f' Hin. apply Hstep. right. exact Hin. }
    destruct f; apply (IH Hstep'); exact HI'.
Qed.

Lemma for_keys_preserves PC nodes (I : list Call -> Prop) ks :
  (forall key n st idx calls calls' f,
      In key ks -> get Z.eqb nodes key = Some n -> In st (states n) ->
      I calls ->
      parse_state PC nodes key st idx calls = ret (calls', f) -> I calls') ->
  forall calls out,
    I calls -> for_keys PC nodes ks calls = ret out -> I out.
Proof.
  induction ks as [|key ks IH]; intros Hstep calls out HI.
  - intros [= <-]. exact HI.
  - cbn [for_keys]. rewrite getitem_get.
    destruct (get Z.eqb nodes key) as [n|] eqn:Hn; [|discriminate].
    cbn [bind ret].
    destruct (for_states PC nodes key (states n) 0 calls) as [e|calls'] eqn:Hs;
      [discriminate|].
    cbn [bind]. apply IH.
    + intros k n' st idx c c' f Hin. apply Hstep. right. exact Hin.
    + eapply (for_states_preserves PC nodes key I (states n)); [|exact HI|exact Hs].
      intros st idx c c' f Hin. apply (Hstep key n); [left; reflexivity | exact Hn | exact Hin].
Qed.

Lemma record_invariants (PC : Z) nodes calls :
  parse_calls PC nodes = ret calls ->
  Forall (fun c => (exists key, In (key, node c) nodes)
                   /\ In (state c) (states (node c))
                   /\ record_fields c) calls.
Proof.
  intros Hrun.
  pose proof (for_keys_preserves PC nodes
    (Forall (fun c => (exists key, In (key, node c) nodes)
                      /\ In (state c) (states (node c))
                      /\ record_fields c)) (keys nodes)) as H.
  eapply H; [ | | exact Hrun]; [ | constructor].
  clear. intros key n st idx calls calls' f _ Hn Hst HI Hp.
  destruct (parse_state_record _ _ _ _ _ _ _ _ Hp)
    as [-> | (c & -> & Hnode & Hstate & Hfields)]; [exact HI|].
  apply Forall_app. split; [exact HI|]. constructor; [|constructor].
  assert (node c = n) as -> by congruence. subst st.
  split; [exists key; apply get_In, Hn|]. split; assumption.
Qed.

(** X2: every record of a finished pass belongs to a node of the
    statespace and to a state of that node; its type is the opcode of that
    state, one of the four call opcodes; its gas and target are the
    classified [stack[-1]] and [stack[-2]] of that state; a [CALL] or
    [CALLCODE] record has the classified [stack[-3]] as value and the memory
    slice as data only when offset and size are definite, and a
    [DELEGATECALL] or [STATICCALL] record has neither value nor data. *)
Theorem records_well_formed (PC : Z) nodes calls c :
  parse_calls PC nodes = ret calls ->
  In c calls ->
  (exists key, In (key, node c) nodes)
  /\ In (state c) (states (node c))
  /\ record_fields c.
Proof.
  intros Hrun Hin.
  pose proof (record_invariants PC nodes calls Hrun) as H.
  rewrite Forall_forall in H. exact (H c Hin).
Qed.

(** ** The index of the records *)

Lemma not_family_not_value op :
  str_in op call_family = false -> str_in op value_calls = false.
Proof.
  intros H. destruct (str_in op value_calls) eqn:Hv; [|reflexivity].
  apply value_calls_family in Hv. congruence.
Qed.

(** The way the body is left tells whether the state was skipped. *)
Lemma parsed_flow PC nodes key st idx new f :
  parsed PC nodes key st idx (ret (new, f)) ->
  filtered PC st = match f with Continue => true | Fallthrough => false end.
Proof.
  intros Hp. pose proof (parsed_states _ _ _ _ _ _ _ Hp) as Hq.
  unfold qualifies in Hq. fold (filtered PC st) in Hq.
  assert (Hnf : str_in (opcode (get_current_instruction st)) call_family = false ->
                filtered PC st = false).
  { intros H. unfold filtered. rewrite (not_family_not_value _ H). reflexivity. }
  destruct (str_in (opcode (get_current_instruction st)) call_family) eqn:Hf.
  - destruct (filtered PC st); cbn in Hq; inversion Hp; subst;
      try reflexivity; try discriminate; congruence.
  - rewrite (Hnf eq_refl). inversion Hp; subst; try reflexivity;
      try match goal with H : str_in _ value_calls = true |- _ =>
            apply value_calls_family in H end;
      congruence.
Qed.

Lemma states_parsed_index PC nodes key sts idx r :
  states_parsed PC nodes key sts idx r ->
  forall out, r = ret out ->
    Forall (fun c =>
              get Z.eqb nodes key = Some (node c)
              /\ exists pos,
                  nth_error sts pos = Some (state c)
                  /\ (state_index c + skipped_before PC sts pos = idx + pos)%nat)
           out.
Proof.
  induction 1 as [idx | st sts idx e' Hp | st sts idx new f r Hp Hr IH];
    intros out Hout.
  - injection Hout as <-. constructor.
  - discriminate.
  - destruct r as [e|out']; [discriminate|]. injection Hout as <-.
    pose proof (parsed_flow _ _ _ _ _ _ _ Hp) as Hflow.
    apply Forall_app. split.
    + inversion Hp; subst; constructor; [|constructor].
      split; [assumption|]. exists 0%nat. split.
      * reflexivity.
      * unfold skipped_before. cbn. lia.
    + specialize (IH _ eq_refl). eapply Forall_impl; [|exact IH].
      intros c (Hn & pos & Hnth & Hidx). split; [exact Hn|].
      exists (S pos). split; [exact Hnth|].
      unfold skipped_before in *. cbn [firstn filter]. rewrite Hflow.
      destruct f; cbn [next_index List.length] in *; lia.
Qed.

Lemma keys_parsed_index PC nodes ks r :
  keys_parsed PC nodes ks r ->
  forall out, r = ret out ->
    Forall (fun c =>
              exists pos,
                nth_error (states (node c)) pos = Some (state c)
                /\ (state_index c + skipped_before PC (states (node c)) pos
                    = pos)%nat)
           out.
Proof.
  induction 1 as [| key ks Hn | key ks n r1 r2 Hn H1 H2 IH]; intros out Hout.
  - injection Hout as <-. constructor.
  - discriminate.
  - destruct r1 as [e1|out1]; [discriminate|].
    destruct r2 as [e2|out2]; [discriminate|]. injection Hout as <-.
    apply Forall_app. split; [|apply IH; reflexivity].
    eapply Forall_impl; [|exact (states_parsed_index _ _ _ _ _ _ H1 _ eq_refl)].
    intros c (Hnode & pos & Hnth & Hidx).
    assert (node c = n) as -> by congruence.
    exists pos. split; [exact Hnth | exact Hidx].
Qed.

Lemma record_position (PC : Z) nodes calls c :
  parse_calls PC nodes = ret calls ->
  In c calls ->
  exists pos,
    nth_error (states (node c)) pos = Some (state c)
    /\ (state_index c + skipped_before PC (states (node c)) pos = pos)%nat.
Proof.
  intros Hrun Hin.
  pose proof (keys_parsed_index _ _ _ _ (parse_calls_spec PC nodes) _ Hrun) as H.
  rewrite Forall_forall in H. exact (H c Hin).
Qed.

(** X3: the [state_index] of a record is the position of its state in
    its node less the number of earlier states of that node that the
    prebuilt filter skipped.  So it never exceeds the position, it is always
    a valid index into the states of the node, and it is the position when
    the node has no skipped state. *)
Theorem state_index_counts_unskipped (PC : Z) nodes calls c :
  parse_calls PC nodes = ret calls ->
  In c calls ->
  exists pos,
    nth_error (states (node c)) pos = Some (state c)
    /\ (state_index c + skipped_before PC (states (node c)) pos = pos)%nat
    /\ (state_index c <= pos < List.length (states (node c)))%nat
    /\ (forallb (fun st => negb (filtered PC st)) (states (node c)) = true ->
        state_index c = pos).
Proof.
  intros Hrun Hin.
  destruct (record_position PC nodes calls c Hrun Hin) as (pos & Hnth & Hidx).
  exists pos. split; [exact Hnth|]. split; [exact Hidx|]. split.
  - split; [lia|]. apply nth_error_Some. congruence.
  - intros Hall. unfold skipped_before in Hidx.
    assert (E : filter (filtered PC) (firstn pos (states (node c))) = []).
    { clear - Hall. revert pos.
      induction (states (node c)) as [|st sts IH]; intros [|pos];
        try reflexivity.
      cbn in Hall. apply andb_true_iff in Hall. destruct Hall as [Hst Hall].
      cbn [firstn filter]. apply negb_true_iff in Hst. rewrite Hst.
      apply IH, Hall. }
    rewrite E in Hidx. cbn in Hidx. lia.
Qed.

(** ** The pass on a statespace in two parts *)

Lemma parse_state_ext PC (d d' : dict Z Node) key st idx calls :
  get Z.eqb d key = get Z.eqb d' key ->
  parse_state PC d key st idx calls = parse_state PC d' key st idx calls.
Proof.
  intros H. unfold parse_state. rewrite !getitem_get, H. reflexivity.
Qed.

Lemma for_states_ext PC (d d' : dict Z Node) key sts :
  get Z.eqb d key = get Z.eqb d' key ->
  forall idx calls,
    for_states PC d key sts idx calls = for_states PC d' key sts idx calls.
Proof.
  intros H. induction sts as [|st sts IH]; intros idx calls; [reflexivity|].
  cbn [for_states]. rewrite (parse_state_ext PC d d' key st idx calls H).
  destruct (parse_state PC d' key st idx calls) as [e|[calls' f]];
    [reflexivity|].
  cbn [bind fst snd]. destruct f; apply IH.
Qed.

Lemma for_keys_ext PC (d d' : dict Z Node) ks :
  (forall key, In key ks -> get Z.eqb d key = get Z.eqb d' key) ->
  forall calls, for_keys PC d ks calls = for_keys PC d' ks calls.
Proof.
  induction ks as [|key ks IH]; intros H calls; [reflexivity|].
  cbn [for_keys]. rewrite !getitem_get, (H key (or_introl eq_refl)).
  destruct (get Z.eqb d' key) as [n|]; [|reflexivity]. cbn [bind ret].
  rewrite (for_states_ext PC d d' key (states n) (H key (or_introl eq_refl))).
  destruct (for_states PC d' key (states n) 0 calls); [reflexivity|].
  cbn [bind]. apply IH. intros k Hk. apply H. right. exact Hk.
Qed.

Lemma for_keys_app PC nodes ks1 ks2 calls :
  for_keys PC nodes (ks1 ++ ks2) calls =
  (x <- for_keys PC nodes ks1 calls ;; for_keys PC nodes ks2 x).
Proof.
  revert calls. induction ks1 as [|key ks1 IH]; intros calls; [reflexivity|].
  cbn [app for_keys].
  destruct (getitem Z.eqb nodes key) as [e|n]; [reflexivity|]. cbn [bind].
  destruct (for_states PC nodes key (states n) 0 calls); [reflexivity|].
  cbn [bind]. apply IH.
Qed.

Lemma for_keys_acc PC nodes ks calls :
  for_keys PC nodes ks calls =
  (x <- for_keys PC nodes ks [] ;; ret (calls ++ x)).
Proof.
  destruct (for_keys_spec PC nodes ks) as (r & _ & Heq).
  rewrite (Heq calls), (Heq []). destruct r; reflexivity.
Qed.

Lemma get_app_l {V} (d1 d2 : dict Z V) key :
  In key (keys d1) -> get Z.eqb (d1 ++ d2) key = get Z.eqb d1 key.
Proof.
  induction d1 as [|[k v] d1 IH]; cbn; [contradiction|].
  destruct (Z.eqb_spec key k); [reflexivity|].
  intros [E | H]; [congruence | auto].
Qed.

Lemma get_app_r {V} (d1 d2 : dict Z V) key :
  ~ In key (keys d1) -> get Z.eqb (d1 ++ d2) key = get Z.eqb d2 key.
Proof.
  induction d1 as [|[k v] d1 IH]; cbn; [reflexivity|].
  intros H. destruct (Z.eqb_spec key k) as [->|]; [tauto|].
  apply IH. tauto.
Qed.

Lemma NoDup_app_disjoint {A} (l1 l2 : list A) a :
  NoDup (l1 ++ l2) -> In a l1 -> In a l2 -> False.
Proof.
  induction l1 as [|x l1 IH]; intros Hnd H1 H2; [contradiction|].
  apply NoDup_cons_iff in Hnd. destruct Hnd as [Hnot Hnd].
  destruct H1 as [-> | H1]; [|exact (IH Hnd H1 H2)].
  apply Hnot, in_or_app. right. exact H2.
Qed.

(** X5: the pass works node by node.  On a statespace in two parts with
    different keys it gives the records of the first part followed by the
    records of the second, and it raises when one of the parts does. *)
Theorem parse_calls_app (PC : Z) (d1 d2 : dict Z Node) :
  NoDup (keys (d1 ++ d2)) ->
  parse_calls PC (d1 ++ d2) =
  (x <- parse_calls PC d1 ;; y <- parse_calls PC d2 ;; ret (x ++ y)).
Proof.
  intros Hnd. unfold parse_calls, keys. rewrite map_app, for_keys_app.
  fold (keys d1) (keys d2).
  rewrite (for_keys_ext PC (d1 ++ d2) d1 (keys d1))
    by (intros key Hk; apply get_app_l, Hk).
  destruct (for_keys PC d1 (keys d1) []) as [e|x]; [reflexivity|].
  cbn [bind].
  rewrite (for_keys_ext PC (d1 ++ d2) d2 (keys d2)).
  - apply for_keys_acc.
  - intros key Hk. apply get_app_r. intros Hk1.
    unfold keys in Hnd. rewrite map_app in Hnd.
    exact (NoDup_app_disjoint _ _ _ Hnd Hk1 Hk).
Qed.

(** ** The record of one occurrence *)


(** One run of the body, from the empty list of calls. *)
Lemma parse_state_new PC nodes key st idx calls calls' f :
  parse_state PC nodes key st idx calls = ret (calls', f) ->
  exists new,
    calls' = calls ++ new
    /\ (forall acc, parse_state PC nodes key st idx acc = ret (acc ++ new, f))
    /\ map state new = (if qualifies PC st then [st] else [])
    /\ filtered PC st = match f with Continue => true | Fallthrough => false end.
Proof.
  destruct (parse_state_spec PC nodes key st idx) as (r & Hp & Heq).
  rewrite Heq. destruct r as [e|[new f']]; [discriminate|].
  cbn [bind ret fst snd]. intros [= <- <-]. exists new.
  split; [reflexivity|]. split; [intros acc; rewrite Heq; reflexivity|].
  split; [exact (parsed_states _ _ _ _ _ _ _ Hp)|].
  exact (parsed_flow _ _ _ _ _ _ _ Hp).
Qed.

Lemma for_states_acc PC nodes key sts idx calls :
  for_states PC nodes key sts idx calls =
  (x <- for_states PC nodes key sts idx [] ;; ret (calls ++ x)).
Proof.
  destruct (for_states_spec PC nodes key sts idx) as (r & _ & Heq).
  rewrite (Heq calls), (Heq []). destruct r; reflexivity.
Qed.

Lemma for_states_order PC nodes key sts idx out :
  for_states PC nodes key sts idx [] = ret out ->
  map state out = filter (qualifies PC) sts.
Proof.
  destruct (for_states_spec PC nodes key sts idx) as (r & Hr & Heq).
  rewrite Heq. destruct r as [e|x]; [discriminate|]. cbn. intros [= <-].
  exact (states_parsed_order _ _ _ _ _ _ Hr _ eq_refl).
Qed.

Lemma for_keys_order PC nodes ks out :
  for_keys PC nodes ks [] = ret out ->
  map state out = filter (qualifies PC) (flat_map (states_at nodes) ks).
Proof.
  destruct (for_keys_spec PC nodes ks) as (r & Hr & Heq).
  rewrite Heq. destruct r as [e|x]; [discriminate|]. cbn. intros [= <-].
  exact (keys_parsed_order _ _ _ _ Hr _ eq_refl).
Qed.

(** The loop over the states of a node, cut before one of them: the index
    at the cut is the number of states before it that were not skipped. *)
Lemma for_states_app PC nodes key s1 s2 : forall idx calls out,
  for_states PC nodes key (s1 ++ s2) idx calls = ret out ->
  exists mid idx2,
    for_states PC nodes key s1 idx calls = ret mid
    /\ (idx2 + List.length (filter (filtered PC) s1) = idx + List.length s1)%nat
    /\ for_states PC nodes key s2 idx2 mid = ret out.
Proof.
  induction s1 as [|st s1 IH]; intros idx calls out.
  - intros H. exists calls, idx. split; [reflexivity|]. split; [cbn; lia | exact H].
  - cbn [app for_states].
    destruct (parse_state PC nodes key st idx calls) as [e|[calls' f]] eqn:Hp;
      [discriminate|].
    cbn [bind fst snd].
    destruct (parse_state_new _ _ _ _ _ _ _ _ Hp) as (new & _ & _ & _ & Hf).
    cbn [filter]. rewrite Hf.
    destruct f; intros H; destruct (IH _ _ _ H) as (mid & idx2 & H1 & Hi & H2);
      exists mid, idx2; (split; [exact H1|]); (split; [cbn; lia | exact H2]).
Qed.

Lemma flat_map_agree {A B} (f g : A -> list B) (l : list A) :
  (forall a, In a l -> f a = g a) -> flat_map f l = flat_map g l.
Proof.
  induction l as [|a l IH]; intros H; [reflexivity|].
  cbn. rewrite (H a (or_introl eq_refl)), IH; [reflexivity|].
  intros b Hb. apply H. right. exact Hb.
Qed.

Lemma states_at_values (nodes d : dict Z Node) :
  NoDup (keys d) ->
  (forall key, In key (keys d) -> get Z.eqb nodes key = get Z.eqb d key) ->
  flat_map (states_at nodes) (keys d) = flat_map states (values d).
Proof.
  intros Hnd Hget. rewrite <- (flat_map_states_at d Hnd).
  apply flat_map_agree. intros key Hk. unfold states_at.
  rewrite (Hget key Hk). reflexivity.
Qed.

(** The pass on a statespace, seen from one state of one of its nodes:
    the records before it, what the body adds at it, the records after. *)
Lemma occurrence_split PC (d1 d2 : dict Z Node) key n s1 st s2 calls :
  NoDup (keys (d1 ++ (key, n) :: d2)) ->
  states n = s1 ++ st :: s2 ->
  parse_calls PC (d1 ++ (key, n) :: d2) = ret calls ->
  exists l1 new f l2 idx,
    calls = l1 ++ new ++ l2
    /\ (forall acc,
          parse_state PC (d1 ++ (key, n) :: d2) key st idx acc
          = ret (acc ++ new, f))
    /\ (idx + skipped_before PC (states n) (List.length s1)
        = List.length s1)%nat
    /\ map state l1
       = filter (qualifies PC) (flat_map states (values d1) ++ s1)
    /\ map state l2
       = filter (qualifies PC) (s2 ++ flat_map states (values d2)).
Proof.
  intros Hnd Hst Hrun. set (nodes := d1 ++ (key, n) :: d2) in *.
  assert (Hk : keys nodes = keys d1 ++ key :: keys d2).
  { unfold nodes, keys. rewrite map_app. reflexivity. }
  assert (Hnd' := Hnd). rewrite Hk in Hnd'.
  assert (Hn : get Z.eqb nodes key = Some n).
  { apply get_NoDup; [exact Hnd|]. unfold nodes. apply in_or_app. right.
    left. reflexivity. }
  assert (Hg1 : forall k, In k (keys d1) -> get Z.eqb nodes k = get Z.eqb d1 k).
  { intros k Hin. unfold nodes. apply get_app_l, Hin. }
  assert (Hg2 : forall k, In k (keys d2) -> get Z.eqb nodes k = get Z.eqb d2 k).
  { intros k Hin. unfold nodes. rewrite get_app_r.
    - cbn. destruct (Z.eqb_spec k key) as [->|]; [|reflexivity].
      exfalso. apply NoDup_app_remove_l in Hnd'.
      apply NoDup_cons_iff in Hnd'. tauto.
    - intros Hin1.
      exact (NoDup_app_disjoint _ _ k Hnd' Hin1 (or_intror Hin)). }
  unfold parse_calls in Hrun. rewrite Hk, for_keys_app in Hrun.
  destruct (for_keys PC nodes (keys d1) []) as [e|x1] eqn:E1; [discriminate|].
  cbn [bind for_keys] in Hrun. rewrite getitem_get, Hn in Hrun.
  cbn [bind ret] in Hrun. rewrite Hst in Hrun.
  destruct (for_states PC nodes key (s1 ++ st :: s2) 0 x1) as [e|x2] eqn:E2;
    [discriminate|].
  cbn [bind] in Hrun.
  destruct (for_states_app _ _ _ _ _ _ _ _ E2) as (mid & idx & Hs1 & Hidx & Hs2).
  cbn [for_states] in Hs2.
  destruct (parse_state PC nodes key st idx mid) as [e|[mid' f]] eqn:Hp;
    [discriminate|].
  cbn [bind fst snd] in Hs2.
  destruct (parse_state_new _ _ _ _ _ _ _ _ Hp) as (new & -> & Hnew & _ & _).
  rewrite for_states_acc in Hs1.
  destruct (for_states PC nodes key s1 0 []) as [e|a1] eqn:Ea1; [discriminate|].
  cbn in Hs1. injection Hs1 as <-.
  assert (Hs2' : for_states PC nodes key s2 (next_index idx f)
                   ((x1 ++ a1) ++ new) = ret x2) by (destruct f; exact Hs2).
  rewrite for_states_acc in Hs2'.
  destruct (for_states PC nodes key s2 (next_index idx f) []) as [e|a2] eqn:Ea2;
    [discriminate|].
  cbn in Hs2'. injection Hs2' as <-.
  rewrite for_keys_acc in Hrun.
  destruct (for_keys PC nodes (keys d2) []) as [e|a3] eqn:Ea3; [discriminate|].
  cbn in Hrun. injection Hrun as <-.
  exists (x1 ++ a1), new, f, (a2 ++ a3), idx.
  split; [rewrite <- !app_assoc; reflexivity|]. split; [exact Hnew|]. split.
  { unfold skipped_before. rewrite Hst, firstn_app, firstn_all, Nat.sub_diag.
    cbn [firstn]. rewrite app_nil_r. lia. }
  split.
  - rewrite map_app, filter_app, (for_keys_order _ _ _ _ E1),
      (for_states_order _ _ _ _ _ _ Ea1).
    rewrite (states_at_values nodes d1);
      [reflexivity | exact (NoDup_app_remove_r _ _ Hnd') | exact Hg1].
  - rewrite map_app, filter_app, (for_keys_order _ _ _ _ Ea3),
      (for_states_order _ _ _ _ _ _ Ea2).
    rewrite (states_at_values nodes d2); [reflexivity | | exact Hg2].
    apply NoDup_app_remove_l in Hnd'. apply NoDup_cons_iff in Hnd'. tauto.
Qed.


Lemma node_of_key (d1 d2 : dict Z Node) key n :
  NoDup (keys (d1 ++ (key, n) :: d2)) ->
  getitem Z.eqb (d1 ++ (key, n) :: d2) key = ret n.
Proof.
  intros Hnd. rewrite getitem_get, (get_NoDup _ key n Hnd); [reflexivity|].
  apply in_or_app. right. left. reflexivity.
Qed.

(** The record of a value call that the filter lets through, in its place
    among the records of the pass. *)
Lemma value_call_in_pass (PC : Z) (d1 d2 : dict Z Node) key n s1 st s2 calls
    rest memoutsz memoutstart meminsz meminstart value_ to_ gas_ :
  NoDup (keys (d1 ++ (key, n) :: d2)) ->
  states n = s1 ++ st :: s2 ->
  opcode (get_current_instruction st) = "CALL"
  \/ opcode (get_current_instruction st) = "CALLCODE" ->
  stack (mstate st) =
    rest ++ [memoutsz; memoutstart; meminsz; meminstart; value_; to_; gas_] ->
  (forall t, to_ = Concrete t -> ~ 0 < t <= PC) ->
  parse_calls PC (d1 ++ (key, n) :: d2) = ret calls ->
  exists l1 l2 idx,
    calls
    = l1 ++ mkCall n st idx (opcode (get_current_instruction st))
              (get_variable to_) (get_variable gas_)
              (Some (get_variable value_))
              match meminstart, meminsz with
              | Concrete start, Concrete sz =>
                  Some (Memory.slice (memory (mstate st)) start (sz + start))
              | _, _ => None
              end :: l2
    /\ (idx + skipped_before PC (states n) (List.length s1)
        = List.length s1)%nat
    /\ map state l1
       = filter (qualifies PC) (flat_map states (values d1) ++ s1)
    /\ map state l2
       = filter (qualifies PC) (s2 ++ flat_map states (values d2)).
Proof.
  intros Hnd Hst Hop Hstk Hto Hrun.
  destruct (occurrence_split PC d1 d2 key n s1 st s2 calls Hnd Hst Hrun)
    as (l1 & new & f & l2 & idx & -> & Hnew & Hidx & H1 & H2).
  specialize (Hnew []).
  rewrite (value_call_recorded PC _ _ _ _ _ _ _ _ _ _ _ _ _ _ Hop Hstk Hto
             (node_of_key d1 d2 key n Hnd)) in Hnew.
  injection Hnew as <- _.
  exists l1, l2, idx. repeat split; assumption.
Qed.


(** C3: in a pass that returns, a [DELEGATECALL] or [STATICCALL] of the
    statespace has exactly one record, between the records of the states
    before it and those of the states after it.  The record is made of the
    opcode, the target operand and the gas operand, without value and
    without data, whatever the target is: a definite address of a prebuilt
    is recorded as any other. *)
Theorem delegate_static_always_recorded (PC : Z) :
  forall (d1 d2 : dict Z Node) key n s1 st s2 calls rest
         memoutsz memoutstart meminsz meminstart to_ gas_,
    NoDup (keys (d1 ++ (key, n) :: d2)) ->
    states n = s1 ++ st :: s2 ->
    opcode (get_current_instruction st) = "DELEGATECALL"
    \/ opcode (get_current_instruction st) = "STATICCALL" ->
    stack (mstate st) =
      rest ++ [memoutsz; memoutstart; meminsz; meminstart; to_; gas_] ->
    parse_calls PC (d1 ++ (key, n) :: d2) = ret calls ->
    exists l1 l2 idx,
      calls
      = l1 ++ mkCall n st idx (opcode (get_current_instruction st))
                (get_variable to_) (get_variable gas_) None None :: l2
      /\ (idx + skipped_before PC (states n) (List.length s1)
          = List.length s1)%nat
      /\ map state l1
         = filter (qualifies PC) (flat_map states (values d1) ++ s1)
      /\ map state l2
         = filter (qualifies PC) (s2 ++ flat_map states (values d2)).
Proof.
  intros d1 d2 key n s1 st s2 calls rest mos mo ms mi to_ g
         Hnd Hst Hop Hstk Hrun.
  destruct (occurrence_split PC d1 d2 key n s1 st s2 calls Hnd Hst Hrun)
    as (l1 & new & f & l2 & idx & -> & Hnew & Hidx & H1 & H2).
  specialize (Hnew []). destruct (op_other_call _ Hop) as [Hf Hv].
  rewrite (parse_state_other_call _ _ _ _ _ _ _ _ _ _ _ _ _ Hf Hv Hstk),
    (node_of_key d1 d2 key n Hnd) in Hnew.
  cbn [bind ret] in Hnew. injection Hnew as <- _.
  exists l1, l2, idx. repeat split; assumption.
Qed.

(** C10: in a pass that returns, a [CALL] or [CALLCODE] of the
    statespace whose target is an expression has its record among the
    records of the pass, and so has one whose target is the definite address
    zero or a definite address above [PRECOMPILE_COUNT]: the prebuilt filter
    does not apply to them. *)
Theorem unfiltered_target_recorded (PC : Z) :
  forall (d1 d2 : dict Z Node) key n s1 st s2 calls rest
         memoutsz memoutstart meminsz meminstart value_ to_ gas_,
    NoDup (keys (d1 ++ (key, n) :: d2)) ->
    states n = s1 ++ st :: s2 ->
    opcode (get_current_instruction st) = "CALL"
    \/ opcode (get_current_instruction st) = "CALLCODE" ->
    stack (mstate st) =
      rest ++ [memoutsz; memoutstart; meminsz; meminstart; value_; to_; gas_] ->
    (exists e, to_ = Symbolic e)
    \/ (exists t, to_ = Concrete t /\ (t = 0 \/ PC < t)) ->
    parse_calls PC (d1 ++ (key, n) :: d2) = ret calls ->
    exists l1 c l2,
      calls = l1 ++ c :: l2
      /\ map state l1
         = filter (qualifies PC) (flat_map states (values d1) ++ s1)
      /\ map state l2
         = filter (qualifies PC) (s2 ++ flat_map states (values d2))
      /\ node c = n /\ state c = st
      /\ (state_index c + skipped_before PC (states n) (List.length s1)
          = List.length s1)%nat
      /\ call_type c = opcode (get_current_instruction st)
      /\ to c = get_variable to_.
Proof.
  intros d1 d2 key n s1 st s2 calls rest mos mo ms mi v to_ g
         Hnd Hst Hop Hstk Hto Hrun.
  assert (Hto' : forall t, to_ = Concrete t -> ~ 0 < t <= PC).
  { intros t ->. destruct Hto as [[e [=]] | (t' & [= <-] & Ht)]. lia. }
  destruct (value_call_in_pass PC d1 d2 key n s1 st s2 calls rest
              mos mo ms mi v to_ g Hnd Hst Hop Hstk Hto' Hrun)
    as (l1 & l2 & idx & -> & Hidx & H1 & H2).
  eexists l1, _, l2. split; [reflexivity|].
  cbn [node state state_index call_type to].
  split; [exact H1|]. split; [exact H2|].
  do 2 (split; [reflexivity|]). split; [exact Hidx|]. split; reflexivity.
Qed.

(** ** The run of the wrapper *)

Section WrapperFacts.

Variables Iprof HookDict DetectionModule Edge : Type.
Variable PRECOMPILE_COUNT : Z.
Variable ACTORS : Actors.
Variable int16 : string -> result Z.
Variable get_detection_modules :
  EntryPoint -> option (list string) -> list DetectionModule.
Variable get_detection_module_hooks :
  list DetectionModule -> string -> HookDict.
Variable laser_nodes : list (Event Iprof HookDict) -> dict Z Node.
Variable laser_edges : list (Event Iprof HookDict) -> list Edge.

Abbreviation requires :=
  (requires_statespace Iprof DetectionModule get_detection_modules).
Abbreviation built_laser :=
  (laser_of Iprof DetectionModule get_detection_modules).
Abbreviation setup :=
  (setup_events Iprof HookDict DetectionModule ACTORS get_detection_modules
     get_detection_module_hooks).
Abbreviation start := (dispatch_events Iprof HookDict).
Abbreviation init :=
  (__init__ Iprof HookDict DetectionModule Edge PRECOMPILE_COUNT ACTORS int16
     get_detection_modules get_detection_module_hooks laser_nodes laser_edges).

Lemma bind_emit {A} (ev : Event Iprof HookDict)
    (k : unit -> Eff.M (E := Event Iprof HookDict) A) log :
  Eff.bind (Eff.emit ev) k log = k tt (log ++ [ev]).
Proof. reflexivity. Qed.

Lemma bind_ret {A B} (a : A)
    (k : A -> Eff.M (E := Event Iprof HookDict) B) log :
  Eff.bind (Eff.ret a) k log = k a log.
Proof. reflexivity. Qed.

Lemma bind_assoc {A B C} (m : Eff.M (E := Event Iprof HookDict) A)
    (f : A -> Eff.M B) (k : B -> Eff.M C) log :
  Eff.bind (Eff.bind m f) k log = Eff.bind m (fun x => Eff.bind (f x) k) log.
Proof. unfold Eff.bind. destruct (m log) as [[e|a] log']; reflexivity. Qed.

Lemma for_each_emit {A} (l : list A) (f : A -> Event Iprof HookDict) log :
  Eff.for_each l (fun a => Eff.emit (f a)) log = (inr tt, log ++ map f l).
Proof.
  revert log. induction l as [|a l IH]; intros log; cbn [Eff.for_each map].
  - rewrite app_nil_r. reflexivity.
  - rewrite bind_emit, IH, <- app_assoc. reflexivity.
Qed.

Lemma bind_for_each_emit {A B} (l : list A) (f : A -> Event Iprof HookDict)
    (k : unit -> Eff.M B) log :
  Eff.bind (Eff.for_each l (fun a => Eff.emit (f a))) k log
  = k tt (log ++ map f l).
Proof. unfold Eff.bind at 1. rewrite for_each_emit. reflexivity. Qed.

Lemma dispatch_run contract address dynloader log :
  dispatch Iprof HookDict contract address dynloader log =
  (inr tt, log ++ start contract address dynloader).
Proof.
  unfold dispatch, dispatch_events, runs_creation.
  destruct (Contract.class contract); try reflexivity.
  - destruct (truthy (Contract.creation_code contract)); [reflexivity|].
    rewrite !bind_emit. unfold Eff.emit. rewrite <- !app_assoc. reflexivity.
  - rewrite !bind_emit. unfold Eff.emit. rewrite <- !app_assoc. reflexivity.
Qed.

Lemma bind_dispatch {B} contract address dynloader
    (k : unit -> Eff.M B) log :
  Eff.bind (dispatch Iprof HookDict contract address dynloader) k log
  = k tt (log ++ start contract address dynloader).
Proof. unfold Eff.bind at 1. rewrite dispatch_run. reflexivity. Qed.

(** The run of [__init__], step by step. *)
Lemma init_run contract address strategy opts log :
  init contract address strategy opts log =
  match normalize_address int16 address with
  | inl e => (raise e, log)
  | inr b =>
      match select_strategy strategy with
      | inl e => (raise e, log)
      | inr s =>
          let log' :=
            log ++ setup contract s opts
                ++ start contract b (Options.dynloader opts) in
          if requires opts
          then
            (calls <- parse_calls PRECOMPILE_COUNT (laser_nodes log') ;;
             ret (SymExecWrapper.mk (bootstrap_accounts ACTORS contract)
                    (built_laser s opts) (Some (laser_nodes log'))
                    (Some (laser_edges log')) (Some calls)),
             log')
          else
            (ret (SymExecWrapper.mk (bootstrap_accounts ACTORS contract)
                    (built_laser s opts) None None None),
             log')
      end
  end.
Proof.
  unfold __init__, Eff.bind at 1, Eff.lift at 1.
  destruct (normalize_address int16 address) as [e|b]; [reflexivity|].
  unfold Eff.bind at 1, Eff.lift at 1.
  destruct (select_strategy strategy) as [e|s]; [reflexivity|].
  unfold setup_events. fold (built_laser s opts).
  destruct (Options.loop_bound opts) as [lb|];
    destruct (Options.disable_dependency_pruning opts);
    destruct (Options.run_analysis_modules opts);
    cbn [negb Eff.when];
    repeat (rewrite bind_emit || rewrite bind_ret || rewrite bind_assoc
            || rewrite bind_for_each_emit || rewrite bind_dispatch);
    cbn [app]; rewrite <- ?app_assoc; cbn [app];
    destruct (requires opts); cbn [negb];
    try reflexivity;
    unfold Eff.bind, Eff.history, Eff.lift, Eff.ret;
    destruct (parse_calls PRECOMPILE_COUNT _); reflexivity.
Qed.

Lemma hex_inj a b : hex a = hex b -> a = b.
Proof.
  unfold hex. intros H.
  rewrite <- (HexString.to_Z_of_Z a), <- (HexString.to_Z_of_Z b), H.
  reflexivity.
Qed.

Lemma truthy_false s : truthy s = false <-> s = "".
Proof.
  unfold truthy. rewrite negb_false_iff. apply String.eqb_eq.
Qed.

Lemma truthy_true s : truthy s = true <-> s <> "".
Proof.
  unfold truthy. rewrite negb_true_iff. apply String.eqb_neq.
Qed.

Lemma select_strategy_invalid strategy :
  ~ In strategy ["dfs"; "bfs"; "naive-random"; "weighted-random"] ->
  select_strategy strategy = raise (ValueError "Invalid strategy argument supplied").
Proof.
  intros H. unfold select_strategy.
  repeat match goal with
         | |- context [(strategy =? ?s)%string] =>
             destruct (String.eqb_spec strategy s) as [->|];
             [exfalso; apply H; cbn; tauto|]
         end.
  reflexivity.
Qed.

(** C5: each of [dfs], [bfs], [naive-random] and [weighted-random] selects
    its own strategy class, the four classes are distinct, and any other
    name raises [ValueError("Invalid strategy argument supplied")].  With
    such a name [__init__] raises before its first event: no account, no
    engine, no plugin and no world state has been built, and the exception
    is the one of the strategy whenever the address could be normalized. *)
Theorem strategy_selection :
  (select_strategy "dfs" = ret DepthFirstSearchStrategy
   /\ select_strategy "bfs" = ret BreadthFirstSearchStrategy
   /\ select_strategy "naive-random" = ret ReturnRandomNaivelyStrategy
   /\ select_strategy "weighted-random" = ret ReturnWeightedRandomStrategy)
  /\ NoDup [DepthFirstSearchStrategy; BreadthFirstSearchStrategy;
            ReturnRandomNaivelyStrategy; ReturnWeightedRandomStrategy]
  /\ (forall strategy,
        ~ In strategy ["dfs"; "bfs"; "naive-random"; "weighted-random"] ->
        select_strategy strategy
        = raise (ValueError "Invalid strategy argument supplied")
        /\ forall contract address opts log,
            exists e,
              init contract address strategy opts log = (raise e, log)
              /\ (forall b,
                    normalize_address int16 address = ret b ->
                    e = ValueError "Invalid strategy argument supplied")).
Proof.
  split; [repeat split|]. split.
  - repeat constructor; cbn; intuition discriminate.
  - intros strategy H. pose proof (select_strategy_invalid strategy H) as Hs.
    split; [exact Hs|]. intros contract address opts log.
    rewrite init_run, Hs.
    destruct (normalize_address int16 address) as [e|b].
    + exists e. split; [reflexivity | discriminate].
    + eexists. split; [reflexivity | reflexivity].
Qed.

Lemma laser_in_setup contract s opts :
  In (NewLaserEVM (built_laser s opts)) (setup contract s opts).
Proof. unfold setup_events. cbn. do 3 right. left. reflexivity. Qed.

Lemma world_state_in_setup contract s opts :
  In NewWorldState (setup contract s opts).
Proof.
  unfold setup_events. rewrite !in_app_iff. do 4 right. left. left. reflexivity.
Qed.

(** C4: [requires_statespace] holds exactly when [compulsory_statespace]
    is set or there is at least one [POST] detection module for the given
    modules; the engine is built with that flag.  When it does not hold,
    [__init__] returns without parsing calls and [nodes], [edges] and
    [calls] are never assigned; when it holds they are the engine's nodes
    and edges and the records parsed from those nodes. *)
Theorem statespace_retention contract address strategy opts log :
  (requires opts = true <->
   Options.compulsory_statespace opts = true
   \/ get_detection_modules POST (Options.modules opts) <> [])
  /\ (forall w log',
        init contract address strategy opts log = (ret w, log') ->
        LaserEVM.requires_statespace (SymExecWrapper.laser w) = requires opts
        /\ In (NewLaserEVM (SymExecWrapper.laser w)) log'
        /\ (requires opts = false ->
            SymExecWrapper.nodes w = None
            /\ SymExecWrapper.edges w = None
            /\ SymExecWrapper.calls w = None)
        /\ (requires opts = true ->
            SymExecWrapper.nodes w = Some (laser_nodes log')
            /\ SymExecWrapper.edges w = Some (laser_edges log')
            /\ exists calls,
                parse_calls PRECOMPILE_COUNT (laser_nodes log') = ret calls
                /\ SymExecWrapper.calls w = Some calls))
  /\ (requires opts = false ->
      forall b s,
        normalize_address int16 address = ret b ->
        select_strategy strategy = ret s ->
        exists w log', init contract address strategy opts log = (ret w, log'))
  /\ (requires opts = true ->
      forall b s,
        normalize_address int16 address = ret b ->
        select_strategy strategy = ret s ->
        exists log',
          snd (init contract address strategy opts log) = log'
          /\ forall calls,
              parse_calls PRECOMPILE_COUNT (laser_nodes log') = ret calls ->
              exists w,
                init contract address strategy opts log = (ret w, log')
                /\ SymExecWrapper.calls w = Some calls).
Proof.
  split; [|split; [|split]].
  - unfold requires_statespace. rewrite orb_true_iff, Nat.ltb_lt.
    destruct (get_detection_modules POST (Options.modules opts)); cbn.
    + split; [intros [H|H]; [auto | lia] | intros [H|H]; [auto | congruence]].
    + split; intros _; right; [discriminate | lia].
  - intros w log'. rewrite init_run.
    destruct (normalize_address int16 address) as [e|b]; [discriminate|].
    destruct (select_strategy strategy) as [e|s]; [discriminate|].
    cbv zeta.
    assert (Hin : In (NewLaserEVM (built_laser s opts))
                    (log ++ setup contract s opts
                         ++ start contract b (Options.dynloader opts))).
    { apply in_or_app. right. apply in_or_app. left. apply laser_in_setup. }
    destruct (requires opts) eqn:Hreq.
    + destruct (parse_calls PRECOMPILE_COUNT _) as [e|calls] eqn:Hp;
        [discriminate|].
      cbn [bind ret]. intros [= <- <-]. cbn [SymExecWrapper.laser
        SymExecWrapper.nodes SymExecWrapper.edges SymExecWrapper.calls].
      split; [cbn; exact Hreq|]. split.
      { exact Hin. }
      split; [discriminate|]. intros _.
      split; [reflexivity|]. split; [reflexivity|].
      exists calls. split; [exact Hp | reflexivity].
    + intros [= <- <-]. cbn [SymExecWrapper.laser
        SymExecWrapper.nodes SymExecWrapper.edges SymExecWrapper.calls].
      split; [cbn; exact Hreq|]. split.
      { exact Hin. }
      split; [auto | discriminate].
  - intros Hreq b s Hb Hs. rewrite init_run, Hb, Hs. cbv zeta. rewrite Hreq.
    do 2 eexists. reflexivity.
  - intros Hreq b s Hb Hs. rewrite init_run, Hb, Hs. cbv zeta. rewrite Hreq.
    exists (log ++ setup contract s opts
                ++ start contract b (Options.dynloader opts)).
    split; [reflexivity|]. intros calls Hp.
    cbv beta iota delta [ret]. rewrite Hp. eexists. split; reflexivity.
Qed.

(** C6: [self.accounts] is the attacker account alone when the contract
    has no creation code, and the creator account followed by the attacker
    account when it has (the two actors having different addresses); both
    accounts sit at the hex address of their actor, with empty code and no
    dynamic loader. *)
Theorem account_bootstrap contract :
  (Account.address (attacker_account ACTORS) = AddrStr (hex (attacker ACTORS))
   /\ Account.code (attacker_account ACTORS) = Bytecode ""
   /\ Account.dynamic_loader (attacker_account ACTORS) = None)
  /\ (Account.address (creator_account ACTORS) = AddrStr (hex (creator ACTORS))
      /\ Account.code (creator_account ACTORS) = Bytecode ""
      /\ Account.dynamic_loader (creator_account ACTORS) = None)
  /\ (Contract.creation_code contract = "" ->
      bootstrap_accounts ACTORS contract
      = [(hex (attacker ACTORS), attacker_account ACTORS)])
  /\ (Contract.creation_code contract <> "" ->
      creator ACTORS <> attacker ACTORS ->
      bootstrap_accounts ACTORS contract
      = [(hex (creator ACTORS), creator_account ACTORS);
         (hex (attacker ACTORS), attacker_account ACTORS)])
  /\ (forall address strategy opts log w log',
        init contract address strategy opts log = (ret w, log') ->
        SymExecWrapper.accounts w = bootstrap_accounts ACTORS contract).
Proof.
  split; [repeat split|]. split; [repeat split|]. split; [|split].
  - intros H. unfold bootstrap_accounts.
    rewrite (proj2 (truthy_false _) H). reflexivity.
  - intros H Hne. unfold bootstrap_accounts.
    rewrite (proj2 (truthy_true _) H). cbn.
    destruct (String.eqb_spec (hex (attacker ACTORS)) (hex (creator ACTORS)))
      as [E|_]; [|reflexivity].
    apply hex_inj in E. congruence.
  - intros address strategy opts log w log'. rewrite init_run.
    destruct (normalize_address int16 address) as [e|b]; [discriminate|].
    destruct (select_strategy strategy) as [e|s]; [discriminate|].
    cbv zeta. destruct (requires opts).
    + destruct (parse_calls PRECOMPILE_COUNT _); [discriminate|].
      intros [= <- _]. reflexivity.
    + intros [= <- _]. reflexivity.
Qed.

Lemma setup_no_sym_exec contract s opts :
  Forall (fun ev => is_sym_exec ev = false) (setup contract s opts).
Proof.
  unfold setup_events.
  repeat (apply Forall_app; split);
    repeat match goal with
           | |- Forall _ (match ?x with _ => _ end) => destruct x
           | |- Forall _ (if ?x then _ else _) => destruct x
           end;
    try (repeat constructor).
  apply Forall_map, Forall_forall. reflexivity.
Qed.

(** C8: the last events of [__init__] start the engine.  For a
    [SolidityContract], or an [EVMContract] with creation code, that is one
    [sym_exec] of the creation code.  Otherwise one account is built for the
    contract's disassembly at the normalized address, with concrete storage
    exactly when a dynamic loader is given and its [storage_loading] is on;
    it is put into the world state, and [sym_exec] is run on the value of
    that address. *)
Theorem run_dispatch contract address strategy opts log b s :
  normalize_address int16 address = ret b ->
  select_strategy strategy = ret s ->
  exists pre tail r,
    init contract address strategy opts log = (r, log ++ pre ++ tail)
    /\ Forall (fun ev => is_sym_exec ev = false) pre
    /\ In NewWorldState pre
    /\ (Contract.class contract = SolidityContract
        \/ (Contract.class contract = EVMContract
            /\ Contract.creation_code contract <> "") ->
        tail = [SymExecCreation (Contract.creation_code contract)
                   (Contract.name contract)])
    /\ (~ (Contract.class contract = SolidityContract
           \/ (Contract.class contract = EVMContract
               /\ Contract.creation_code contract <> "")) ->
        exists account,
          tail = [NewAccount account; PutAccount account;
                   SymExecTarget (bv_value b)]
          /\ Account.address account = AddrBitVec b
          /\ Account.code account
             = Disassembled (Contract.disassembly contract)
          /\ Account.dynamic_loader account = Options.dynloader opts
          /\ Account.contract_name account = Some (Contract.name contract)
          /\ (Account.concrete_storage account = true <->
              exists d, Options.dynloader opts = Some d
                        /\ storage_loading d = true)).
Proof.
  intros Hb Hs.
  exists (setup contract s opts),
         (start contract b (Options.dynloader opts)),
         (fst (init contract address strategy opts log)).
  split.
  { rewrite init_run, Hb, Hs. cbv zeta. destruct (requires opts); reflexivity. }
  split; [apply setup_no_sym_exec|]. split.
  { apply world_state_in_setup. }
  unfold dispatch_events, runs_creation. split.
  - intros [-> | [-> Hcc]]; [reflexivity|].
    rewrite (proj2 (truthy_true _) Hcc). reflexivity.
  - intros Hnot.
    assert (E : match Contract.class contract with
                | SolidityContract => true
                | EVMContract => truthy (Contract.creation_code contract)
                | OtherContract => false
                end = false).
    { destruct (Contract.class contract); [tauto | | reflexivity].
      destruct (truthy (Contract.creation_code contract)) eqn:Ht;
        [|reflexivity].
      apply truthy_true in Ht. tauto. }
    rewrite E. eexists. split; [reflexivity|].
    cbn [deployed_account Account.address Account.code Account.dynamic_loader
         Account.contract_name Account.concrete_storage].
    repeat (split; [reflexivity|]).
    destruct (Options.dynloader opts) as [[[|]]|]; split;
      try discriminate; eauto.
    + intros (d & [= <-] & Hd). discriminate.
    + intros (d & [=] & _).
Qed.

(** ** The log of a run *)

Lemma flat_map_map {A B C} (f : B -> list C) (g : A -> B) l :
  flat_map f (map g l) = flat_map (fun a => f (g a)) l.
Proof.
  induction l as [|a l IH]; [reflexivity|]. cbn. rewrite IH. reflexivity.
Qed.

Lemma flat_map_nil {A C} (l : list A) :
  flat_map (fun _ : A => @nil C) l = [].
Proof. induction l; [reflexivity | assumption]. Qed.

Lemma flat_map_single {A} (l : list A) : flat_map (fun a => [a]) l = l.
Proof.
  induction l as [|a l IH]; [reflexivity|]. cbn. rewrite IH. reflexivity.
Qed.

Lemma init_log contract address strategy opts log b s :
  normalize_address int16 address = ret b ->
  select_strategy strategy = ret s ->
  snd (init contract address strategy opts log)
  = log ++ setup contract s opts
        ++ start contract b (Options.dynloader opts).
Proof.
  intros Hb Hs. rewrite init_run, Hb, Hs. cbv zeta.
  destruct (requires opts); reflexivity.
Qed.

(** X7: once the address and the strategy are accepted, [__init__] loads
    the mutation pruner, then the instruction coverage plugin, then the
    dependency pruner unless [disable_dependency_pruning] is set, and no
    other plugin. *)
Theorem plugins_loaded_in_order contract address strategy opts log b s :
  normalize_address int16 address = ret b ->
  select_strategy strategy = ret s ->
  loaded_plugins (snd (init contract address strategy opts log))
  = loaded_plugins log
    ++ [mutation_pruner_plugin; instruction_coverage_plugin]
    ++ (if Options.disable_dependency_pruning opts
        then []
        else [dependency_pruner_plugin]).
Proof.
  intros Hb Hs. rewrite (init_log _ _ _ _ _ _ _ Hb Hs).
  unfold loaded_plugins, setup_events, dispatch_events.
  rewrite !flat_map_app. f_equal.
  rewrite flat_map_map. cbn [flat_map app]. rewrite flat_map_nil.
  destruct (Options.loop_bound opts);
    destruct (Options.disable_dependency_pruning opts);
    destruct (Options.run_analysis_modules opts);
    destruct (runs_creation contract); reflexivity.
Qed.

(** X8: with [run_analysis_modules] set, [__init__] registers the hooks
    of the [CALLBACK] modules twice, first as [pre] and then as [post];
    without it no hook is registered. *)
Theorem hooks_registered contract address strategy opts log b s :
  normalize_address int16 address = ret b ->
  select_strategy strategy = ret s ->
  registered_hooks (snd (init contract address strategy opts log))
  = registered_hooks log
    ++ (if Options.run_analysis_modules opts
        then
          [("pre",
            get_detection_module_hooks
              (get_detection_modules CALLBACK (Options.modules opts)) "pre");
           ("post",
            get_detection_module_hooks
              (get_detection_modules CALLBACK (Options.modules opts)) "post")]
        else []).
Proof.
  intros Hb Hs. rewrite (init_log _ _ _ _ _ _ _ Hb Hs).
  unfold registered_hooks, setup_events, dispatch_events.
  rewrite !flat_map_app. f_equal.
  rewrite flat_map_map. cbn [flat_map app]. rewrite flat_map_nil.
  destruct (Options.loop_bound opts);
    destruct (Options.disable_dependency_pruning opts);
    destruct (Options.run_analysis_modules opts);
    destruct (runs_creation contract); reflexivity.
Qed.

Lemma attacker_bootstrapped contract :
  get String.eqb (bootstrap_accounts ACTORS contract) (hex (attacker ACTORS))
  = Some (attacker_account ACTORS).
Proof.
  unfold bootstrap_accounts.
  destruct (negb (truthy (Contract.creation_code contract))); cbn.
  - rewrite String.eqb_refl. reflexivity.
  - destruct (String.eqb (hex (attacker ACTORS)) (hex (creator ACTORS))) eqn:E;
      cbn; rewrite ?String.eqb_refl, ?E; cbn; rewrite ?String.eqb_refl;
      reflexivity.
Qed.

Lemma get_In_values {V} (d : dict string V) k v :
  get String.eqb d k = Some v -> In v (values d).
Proof.
  induction d as [|[k' v'] d IH]; cbn; [discriminate|].
  destruct (String.eqb k k'); [intros [= ->]; auto | auto].
Qed.

(** X9: the accounts put into the world state are those of
    [self.accounts] in their order, followed by the account of the deployed
    code when the engine is not run from creation code; the attacker account
    is always among them. *)
Theorem world_state_accounts contract address strategy opts log b s :
  normalize_address int16 address = ret b ->
  select_strategy strategy = ret s ->
  put_accounts (snd (init contract address strategy opts log))
  = put_accounts log
    ++ values (bootstrap_accounts ACTORS contract)
    ++ (if runs_creation contract
        then []
        else [deployed_account contract b (Options.dynloader opts)])
  /\ In (attacker_account ACTORS)
       (put_accounts (snd (init contract address strategy opts log))).
Proof.
  intros Hb Hs.
  assert (E : put_accounts (snd (init contract address strategy opts log))
              = put_accounts log
                ++ values (bootstrap_accounts ACTORS contract)
                ++ (if runs_creation contract
                    then []
                    else [deployed_account contract b (Options.dynloader opts)])).
  { rewrite (init_log _ _ _ _ _ _ _ Hb Hs).
    unfold put_accounts, setup_events, dispatch_events.
    rewrite !flat_map_app. f_equal.
    rewrite flat_map_map. cbn [flat_map app]. rewrite flat_map_single.
    destruct (Options.loop_bound opts);
      destruct (Options.disable_dependency_pruning opts);
      destruct (Options.run_analysis_modules opts);
      destruct (runs_creation contract); cbn; rewrite ?app_nil_r; reflexivity. }
  split; [exact E|]. rewrite E. apply in_or_app. right. apply in_or_app. left.
  apply (get_In_values _ (hex (attacker ACTORS))), attacker_bootstrapped.
Qed.

(** X10: [__init__] builds one engine, with the selected strategy class
    and the caller's dynamic loader, depth, timeouts, transaction count,
    profiler and coverage flag unchanged, and extends its strategy with the
    loop bound exactly when one is given. *)
Theorem engine_built_once contract address strategy opts log b s :
  normalize_address int16 address = ret b ->
  select_strategy strategy = ret s ->
  exists l,
    engines (snd (init contract address strategy opts log))
    = engines log ++ [l]
    /\ LaserEVM.strategy l = s
    /\ LaserEVM.dynamic_loader l = Options.dynloader opts
    /\ LaserEVM.max_depth l = Options.max_depth opts
    /\ LaserEVM.execution_timeout l = Options.execution_timeout opts
    /\ LaserEVM.create_timeout l = Options.create_timeout opts
    /\ LaserEVM.transaction_count l = Options.transaction_count opts
    /\ LaserEVM.iprof l = Options.iprof opts
    /\ LaserEVM.enable_coverage_strategy l
       = Options.enable_coverage_strategy opts
    /\ strategy_extensions (snd (init contract address strategy opts log))
       = strategy_extensions log
         ++ match Options.loop_bound opts with
            | Some bound => [bound]
            | None => []
            end.
Proof.
  intros Hb Hs. exists (built_laser s opts).
  rewrite (init_log _ _ _ _ _ _ _ Hb Hs).
  split; [|repeat (split; [reflexivity|])].
  - unfold engines, setup_events, dispatch_events.
    rewrite !flat_map_app. f_equal.
    rewrite flat_map_map. cbn [flat_map app]. rewrite flat_map_nil.
    destruct (Options.loop_bound opts);
      destruct (Options.disable_dependency_pruning opts);
      destruct (Options.run_analysis_modules opts);
      destruct (runs_creation contract); reflexivity.
  - unfold strategy_extensions, setup_events, dispatch_events.
    rewrite !flat_map_app. f_equal.
    rewrite flat_map_map. cbn [flat_map app]. rewrite flat_map_nil.
    destruct (Options.loop_bound opts);
      destruct (Options.disable_dependency_pruning opts);
      destruct (Options.run_analysis_modules opts);
      destruct (runs_creation contract); reflexivity.
Qed.

(** ** The address *)

Lemma init_address_ext contract a a' strategy opts log :
  normalize_address int16 a = normalize_address int16 a' ->
  init contract a strategy opts log = init contract a' strategy opts log.
Proof. intros H. rewrite !init_run, H. reflexivity. Qed.

(** X11: [__init__] depends on the address only through the 256-bit
    vector it is normalized to: a string behaves as the integer [int(s, 16)]
    reads from it, two integers that agree modulo [2^256] behave alike, and
    an integer in range behaves as the definite vector of that value. *)
Theorem address_forms_agree contract strategy opts log :
  (forall s n,
      int16 s = ret n ->
      init contract (AddrStr s) strategy opts log
      = init contract (AddrInt n) strategy opts log)
  /\ (forall n m,
        n mod 2 ^ 256 = m mod 2 ^ 256 ->
        init contract (AddrInt n) strategy opts log
        = init contract (AddrInt m) strategy opts log)
  /\ (forall n,
        0 <= n < 2 ^ 256 ->
        init contract (AddrInt n) strategy opts log
        = init contract (AddrBitVec (Concrete n)) strategy opts log).
Proof.
  split; [|split].
  - intros s n H. apply init_address_ext. cbn. rewrite H. reflexivity.
  - intros n m H. apply init_address_ext. cbn. unfold BitVecVal.
    rewrite H. reflexivity.
  - intros n H. apply init_address_ext. cbn. unfold BitVecVal.
    rewrite Z.mod_small by exact H. reflexivity.
Qed.

(** X12: when [int(address, 16)] rejects a string address, [__init__]
    raises that exception before its first event, whatever the strategy
    name is. *)
Theorem malformed_address_raises contract s strategy opts log e :
  int16 s = raise e ->
  init contract (AddrStr s) strategy opts log = (raise e, log).
Proof.
  intros H. rewrite init_run. cbn. rewrite H. reflexivity.
Qed.

(** ** The accounts *)

(** X13: whatever the contract and the actors are, [self.accounts] maps
    the attacker's hex address to the attacker account, has one or two
    entries under different keys, and holds only accounts with empty code,
    no dynamic loader, no name and no concrete storage. *)
Theorem accounts_always_hold_attacker contract :
  get String.eqb (bootstrap_accounts ACTORS contract) (hex (attacker ACTORS))
  = Some (attacker_account ACTORS)
  /\ NoDup (keys (bootstrap_accounts ACTORS contract))
  /\ (1 <= List.length (bootstrap_accounts ACTORS contract) <= 2)%nat
  /\ Forall (fun a => Account.code a = Bytecode ""
                      /\ Account.dynamic_loader a = None
                      /\ Account.contract_name a = None
                      /\ Account.concrete_storage a = false)
       (values (bootstrap_accounts ACTORS contract)).
Proof.
  split; [apply attacker_bootstrapped|].
  unfold bootstrap_accounts.
  destruct (negb (truthy (Contract.creation_code contract))); cbn.
  - split; [repeat constructor; cbn; tauto|]. split; [lia|].
    repeat constructor.
  - destruct (String.eqb_spec (hex (attacker ACTORS)) (hex (creator ACTORS)))
      as [E|E]; cbn.
    + split; [repeat constructor; cbn; tauto|]. split; [lia|].
      repeat constructor.
    + split.
      * repeat constructor; cbn; [|tauto]. intros [H|[]]. congruence.
      * split; [lia|]. repeat constructor.
Qed.

(** ** The wrapper that is returned *)

(** X14: on the wrapper that [__init__] returns, [nodes], [edges] and
    [calls] are assigned together or not at all; when they are, every record
    of [calls] belongs to a node of [nodes] and to a state of that node, and
    its [state_index] is a valid index into the states of that node. *)
Theorem wrapper_calls_in_nodes contract address strategy opts log w log' :
  init contract address strategy opts log = (ret w, log') ->
  (SymExecWrapper.nodes w = None <-> SymExecWrapper.calls w = None)
  /\ (SymExecWrapper.edges w = None <-> SymExecWrapper.calls w = None)
  /\ forall calls,
      SymExecWrapper.calls w = Some calls ->
      exists nodes,
        SymExecWrapper.nodes w = Some nodes
        /\ forall c,
            In c calls ->
            (exists key, In (key, node c) nodes)
            /\ In (state c) (states (node c))
            /\ (state_index c < List.length (states (node c)))%nat.
Proof.
  rewrite init_run.
  destruct (normalize_address int16 address) as [e|b]; [discriminate|].
  destruct (select_strategy strategy) as [e|s]; [discriminate|].
  cbv zeta. destruct (requires opts).
  - destruct (parse_calls PRECOMPILE_COUNT _) as [e|calls] eqn:Hp;
      [discriminate|].
    cbn [bind ret]. intros [= <- _].
    cbn [SymExecWrapper.nodes SymExecWrapper.edges SymExecWrapper.calls].
    split; [split; discriminate|]. split; [split; discriminate|].
    intros calls' [= <-]. eexists. split; [reflexivity|]. intros c Hc.
    destruct (proj1 (Forall_forall _ _) (record_invariants _ _ _ Hp) c Hc)
      as (Hk & Hst & _).
    destruct (record_position _ _ _ c Hp Hc) as (pos & Hnth & Hidx).
    assert (pos < List.length (states (node c)))%nat
      by (apply nth_error_Some; congruence).
    split; [exact Hk|]. split; [exact Hst | lia].
  - intros [= <- _].
    cbn [SymExecWrapper.nodes SymExecWrapper.edges SymExecWrapper.calls].
    split; [tauto|]. split; [tauto | discriminate].
Qed.

End WrapperFacts.

(** ** The theorems at sample inputs *)

Lemma prebuilt_target_discarded_witness :
  0 < 1 <= 8
  /\ parse_state 8 sample_nodes 0 prebuilt_call 0 [] = ret ([], Continue).
Proof.
  split; [lia|].
  apply (proj1 (prebuilt_target_discarded 8) sample_nodes 0 prebuilt_call
           0%nat [] [] (Concrete 0) (Concrete 0) (Concrete 0) (Concrete 0)
           (Concrete 0) (Concrete 2300) 1);
    [left; reflexivity | reflexivity | lia].
Defined.

Lemma state_index_after_prebuilt_witness :
  0 < 8 < 57005
  /\ exists c,
      parse_calls 8 [(0, two_calls)] = ret [c]
      /\ state c = user_call
      /\ nth_error (states (node c)) 1 = Some (state c)
      /\ state_index c = 0%nat.
Proof.
  split; [lia|]. apply (state_index_after_prebuilt 8). lia.
Defined.

Lemma short_stack_raises_witness :
  short_stack short_call
  /\ parse_calls 8 [(0, mkNode 0 [user_call; short_call])] = raise IndexError.
Proof.
  assert (Hs : short_stack short_call) by (unfold short_stack; cbn; lia).
  split; [exact Hs|].
  apply (proj1 (proj2 (proj2 (short_stack_raises 8)))
           [(0, mkNode 0 [user_call; short_call])]).
  - repeat constructor. cbn. tauto.
  - exists 0, (mkNode 0 [user_call; short_call]), short_call.
    split; [left; reflexivity|]. split; [right; left; reflexivity | exact Hs].
Defined.

Lemma strategy_selection_witness :
  select_strategy "random"
  = raise (ValueError "Invalid strategy argument supplied")
  /\ exists e,
      sample_init deployed_contract (AddrInt 5) "random" Options.default []
      = (raise e, []).
Proof.
  assert (H : ~ In "random" ["dfs"; "bfs"; "naive-random"; "weighted-random"]).
  { cbn. intros [H | [H | [H | [H | []]]]]; discriminate H. }
  pose proof (proj2 (proj2 (strategy_selection unit unit unit unit 8
    sample_actors (fun s => ret (HexString.to_Z s)) (fun _ _ => [])
    (fun _ _ => tt) (fun _ => sample_nodes) (fun _ => []))) "random" H)
    as [Hsel Hinit].
  split; [exact Hsel|].
  destruct (Hinit deployed_contract (AddrInt 5) Options.default [])
    as (e & He & _).
  exists e. exact He.
Defined.

Lemma statespace_retention_witness :
  exists w log',
    sample_init deployed_contract (AddrInt 5) "dfs" no_statespace []
    = (ret w, log').
Proof.
  apply (proj1 (proj2 (proj2 (statespace_retention unit unit unit unit 8
    sample_actors (fun s => ret (HexString.to_Z s)) (fun _ _ => [])
    (fun _ _ => tt) (fun _ => sample_nodes) (fun _ => [])
    deployed_contract (AddrInt 5) "dfs" no_statespace [])))
    eq_refl (BitVecVal 5 256) DepthFirstSearchStrategy eq_refl eq_refl).
Defined.

Lemma account_bootstrap_witness :
  bootstrap_accounts sample_actors created_contract
  = [(hex (creator sample_actors), creator_account sample_actors);
     (hex (attacker sample_actors), attacker_account sample_actors)].
Proof.
  apply (proj1 (proj2 (proj2 (proj2 (account_bootstrap unit unit unit unit 8
    sample_actors (fun s => ret (HexString.to_Z s)) (fun _ _ => [])
    (fun _ _ => tt) (fun _ => sample_nodes) (fun _ => [])
    created_contract)))));
    discriminate.
Defined.

Lemma run_dispatch_witness :
  exists pre r,
    sample_init deployed_contract (AddrInt 5) "bfs" no_statespace []
    = (r, [] ++ pre
          ++ [NewAccount
                (Account.mk (AddrBitVec (Concrete 5))
                   (Disassembled (mkDisassembly "6000"))
                   (Some (mkDynLoader true)) (Some "Unknown") true);
              PutAccount
                (Account.mk (AddrBitVec (Concrete 5))
                   (Disassembled (mkDisassembly "6000"))
                   (Some (mkDynLoader true)) (Some "Unknown") true);
              SymExecTarget (Some 5)]).
Proof.
  destruct (run_dispatch unit unit unit unit 8
    sample_actors (fun s => ret (HexString.to_Z s)) (fun _ _ => [])
    (fun _ _ => tt) (fun _ => sample_nodes) (fun _ => [])
    deployed_contract (AddrInt 5) "bfs" no_statespace []
    (BitVecVal 5 256) BreadthFirstSearchStrategy eq_refl eq_refl)
    as (pre & tail & r & Hrun & _ & _ & _ & Hdirect).
  destruct Hdirect as (account & Htail & Haddr & Hcode & Hdyn & Hname & Hcs).
  { intros [H | [_ H]]; [discriminate H | apply H; reflexivity]. }
  exists pre, r. unfold sample_init. rewrite Hrun, Htail.
  destruct account as [a c d n cs].
  cbn in Haddr, Hcode, Hdyn, Hname, Hcs. subst a c d n.
  assert (cs = true) as ->.
  { apply Hcs. exists (mkDynLoader true). split; reflexivity. }
  reflexivity.
Defined.

(** ** More theorems at sample inputs *)

Lemma sample_nodes_keys : NoDup (keys sample_nodes).
Proof.
  repeat constructor; cbn; [intros [H | []]; discriminate H | tauto].
Defined.

Lemma sample_run : parse_calls 8 sample_nodes = ret sample_calls.
Proof. reflexivity. Defined.

Lemma parse_calls_order_witness :
  map state sample_calls = [user_call; symbolic_call; static_call].
Proof.
  rewrite (parse_calls_order 8 sample_nodes sample_calls sample_nodes_keys
             sample_run).
  reflexivity.
Defined.

Lemma records_well_formed_witness :
  (exists key, In (key, node user_record) sample_nodes)
  /\ In (state user_record) (states (node user_record))
  /\ record_fields user_record.
Proof.
  apply (records_well_formed 8 sample_nodes sample_calls user_record
           sample_run).
  left. reflexivity.
Defined.

Lemma state_index_counts_unskipped_witness :
  exists pos,
    nth_error (states (node user_record)) pos = Some (state user_record)
    /\ (state_index user_record
        + skipped_before 8 (states (node user_record)) pos = pos)%nat
    /\ (state_index user_record <= pos
        < List.length (states (node user_record)))%nat
    /\ (forallb (fun st => negb (filtered 8 st)) (states (node user_record))
        = true ->
        state_index user_record = pos).
Proof.
  apply (state_index_counts_unskipped 8 sample_nodes sample_calls user_record
           sample_run).
  left. reflexivity.
Defined.

Lemma parse_calls_app_witness :
  parse_calls 8 sample_nodes
  = (x <- parse_calls 8 [(0, two_calls)] ;;
     y <- parse_calls 8 [(1, mkNode 1 [symbolic_call; static_call])] ;;
     ret (x ++ y)).
Proof.
  apply (parse_calls_app 8 [(0, two_calls)]
           [(1, mkNode 1 [symbolic_call; static_call])]).
  exact sample_nodes_keys.
Defined.

Lemma plugins_loaded_in_order_witness :
  loaded_plugins
    (snd (sample_init deployed_contract (AddrInt 5) "dfs" Options.default []))
  = [mutation_pruner_plugin; instruction_coverage_plugin;
     dependency_pruner_plugin].
Proof.
  apply (plugins_loaded_in_order unit unit unit unit 8 sample_actors
           (fun s => ret (HexString.to_Z s)) (fun _ _ => []) (fun _ _ => tt)
           (fun _ => sample_nodes) (fun _ => [])
           deployed_contract (AddrInt 5) "dfs" Options.default []
           (BitVecVal 5 256) DepthFirstSearchStrategy eq_refl eq_refl).
Defined.

Lemma hooks_registered_witness :
  registered_hooks
    (snd (sample_init deployed_contract (AddrInt 5) "dfs" Options.default []))
  = [("pre", tt); ("post", tt)].
Proof.
  apply (hooks_registered unit unit unit unit 8 sample_actors
           (fun s => ret (HexString.to_Z s)) (fun _ _ => []) (fun _ _ => tt)
           (fun _ => sample_nodes) (fun _ => [])
           deployed_contract (AddrInt 5) "dfs" Options.default []
           (BitVecVal 5 256) DepthFirstSearchStrategy eq_refl eq_refl).
Defined.

Lemma world_state_accounts_witness :
  In (attacker_account sample_actors)
    (put_accounts
       (snd (sample_init deployed_contract (AddrInt 5) "dfs" Options.default
               []))).
Proof.
  apply (world_state_accounts unit unit unit unit 8 sample_actors
           (fun s => ret (HexString.to_Z s)) (fun _ _ => []) (fun _ _ => tt)
           (fun _ => sample_nodes) (fun _ => [])
           deployed_contract (AddrInt 5) "dfs" Options.default []
           (BitVecVal 5 256) DepthFirstSearchStrategy eq_refl eq_refl).
Defined.

Lemma engine_built_once_witness :
  exists l,
    engines
      (snd (sample_init deployed_contract (AddrInt 5) "dfs" Options.default []))
    = [l]
    /\ LaserEVM.strategy l = DepthFirstSearchStrategy
    /\ LaserEVM.max_depth l = 22.
Proof.
  destruct (engine_built_once unit unit unit unit 8 sample_actors
           (fun s => ret (HexString.to_Z s)) (fun _ _ => []) (fun _ _ => tt)
           (fun _ => sample_nodes) (fun _ => [])
           deployed_contract (AddrInt 5) "dfs" Options.default []
           (BitVecVal 5 256) DepthFirstSearchStrategy eq_refl eq_refl)
    as (l & Hl & Hs & _ & Hd & _).
  exists l. split; [exact Hl|]. split; [exact Hs | exact Hd].
Defined.

Lemma address_forms_agree_witness :
  sample_init deployed_contract (AddrStr "0x5") "dfs" Options.default []
  = sample_init deployed_contract (AddrInt 5) "dfs" Options.default [].
Proof.
  apply (proj1 (address_forms_agree unit unit unit unit 8 sample_actors
           (fun s => ret (HexString.to_Z s)) (fun _ _ => []) (fun _ _ => tt)
           (fun _ => sample_nodes) (fun _ => [])
           deployed_contract "dfs" Options.default []) "0x5" 5).
  reflexivity.
Defined.

Lemma malformed_address_raises_witness :
  strict_init deployed_contract (AddrStr "0xzz") "dfs" Options.default []
  = (raise (ValueError "invalid literal for int() with base 16"), []).
Proof.
  apply (malformed_address_raises unit unit unit unit 8 sample_actors
           (fun _ => raise (ValueError "invalid literal for int() with base 16"))
           (fun _ _ => []) (fun _ _ => tt)
           (fun _ => sample_nodes) (fun _ => [])).
  reflexivity.
Defined.

Lemma wrapper_calls_in_nodes_witness :
  exists w log',
    sample_init deployed_contract (AddrInt 5) "dfs" Options.default []
    = (ret w, log')
    /\ SymExecWrapper.calls w = Some sample_calls
    /\ exists nodes,
        SymExecWrapper.nodes w = Some nodes
        /\ forall c,
            In c sample_calls ->
            (exists key, In (key, node c) nodes)
            /\ In (state c) (states (node c))
            /\ (state_index c < List.length (states (node c)))%nat.
Proof.
  destruct (sample_init deployed_contract (AddrInt 5) "dfs" Options.default [])
    as [[e|w] log'] eqn:E; [vm_compute in E; discriminate E|].
  assert (Hcalls : SymExecWrapper.calls w = Some sample_calls).
  { vm_compute in E. injection E as <- _. reflexivity. }
  exists w, log'. split; [reflexivity|]. split; [exact Hcalls|].
  exact (proj2 (proj2 (wrapper_calls_in_nodes unit unit unit unit 8
           sample_actors (fun s => ret (HexString.to_Z s)) (fun _ _ => [])
           (fun _ _ => tt) (fun _ => sample_nodes) (fun _ => [])
           deployed_contract (AddrInt 5) "dfs" Options.default [] w log' E))
           sample_calls Hcalls).
Defined.



Lemma delegate_static_always_recorded_witness :
  exists l1 l2 idx,
    sample_calls
    = l1 ++ mkCall (mkNode 1 [symbolic_call; static_call]) static_call idx
              "STATICCALL" (get_variable (Concrete 2))
              (get_variable (Symbolic "gas")) None None :: l2
    /\ (idx + skipped_before 8 [symbolic_call; static_call] 1 = 1)%nat
    /\ map state l1
       = filter (qualifies 8)
           (flat_map states (values [(0, two_calls)]) ++ [symbolic_call])
    /\ map state l2 = filter (qualifies 8) ([] ++ flat_map states (values (@nil (Z * Node)))).
Proof.
  apply (delegate_static_always_recorded 8 [(0, two_calls)] [] 1
           (mkNode 1 [symbolic_call; static_call]) [symbolic_call] static_call
           [] sample_calls [] (Concrete 32) (Concrete 0) (Concrete 32)
           (Concrete 0) (Concrete 2) (Symbolic "gas")).
  - exact sample_nodes_keys.
  - reflexivity.
  - right. reflexivity.
  - reflexivity.
  - exact sample_run.
Defined.

Lemma unfiltered_target_recorded_witness :
  exists l1 c l2,
    sample_calls = l1 ++ c :: l2
    /\ map state l1
       = filter (qualifies 8) (flat_map states (values [(0, two_calls)]) ++ [])
    /\ map state l2
       = filter (qualifies 8) ([static_call] ++ flat_map states (values (@nil (Z * Node))))
    /\ node c = mkNode 1 [symbolic_call; static_call]
    /\ state c = symbolic_call
    /\ (state_index c + skipped_before 8 [symbolic_call; static_call] 0
        = 0)%nat
    /\ call_type c = "CALLCODE"
    /\ to c = get_variable (Symbolic "calldata_4").
Proof.
  apply (unfiltered_target_recorded 8 [(0, two_calls)] [] 1
           (mkNode 1 [symbolic_call; static_call]) [] symbolic_call
           [static_call] sample_calls [] (Concrete 0) (Concrete 0)
           (Symbolic "calldatasize") (Concrete 0) (Concrete 0)
           (Symbolic "calldata_4") (Concrete 2300)).
  - exact sample_nodes_keys.
  - reflexivity.
  - right. reflexivity.
  - reflexivity.
  - left. eauto.
  - exact sample_run.
Defined.
